(** * Reconciliation of PsychonautWiki and TripSit substance records

    A shallow embedding of [scrape.py]: the name resolver
    ([substance_name_match], [find_substance_in_data]), the retry helper
    ([try_three_times]) with the per-substance query call site, and the merge
    loop over [all_substance_names] with its field mergers.

    Conventions of the embedding.
    - A Python [str] is a [string] of ASCII text: [len] is [String.length],
      [str.lower] maps [A-Z] to [a-z], comparison is by character code.
    - A source record (a Python [dict] read from JSON) is the record
      [Substance.t]: one optional field per key the program reads, [None]
      when the key is missing.  The empty dict [{}] has every field [None].
      A field that is present holds a value of the type the scraper and the
      factsheet API give it.
    - Values the program only passes through (dose, duration, class,
      tolerance, ...) are [json] values.
    - A Python exception is a [Raise] result. *)

From Stdlib Require Import ZArith String Ascii List Bool Lia.
From Stdlib Require Import Sorting.Sorted Permutation.
From stdpp Require Import base decidable option list strings sorting gmap.

Set Warnings "-register-all".
Open Scope string_scope.
Open Scope list_scope.

(** ** Strings *)

(** [c.lower()] on one ASCII character. *)
Definition ascii_lower (c : ascii) : ascii :=
  let n := nat_of_ascii c in
  if (65 <=? n)%nat && (n <=? 90)%nat then ascii_of_nat (n + 32) else c.

(** [s.lower()] *)
Fixpoint lower (s : string) : string :=
  match s with
  | EmptyString => EmptyString
  | String c rest => String (ascii_lower c) (lower rest)
  end.

(** The characters [str.strip()] removes: tab, newline, vertical tab, form
    feed, carriage return, the four separators 28-31, and space. *)
Definition is_whitespace (c : ascii) : bool :=
  let n := nat_of_ascii c in
  ((9 <=? n)%nat && (n <=? 13)%nat) || ((28 <=? n)%nat && (n <=? 32)%nat).

Fixpoint lstrip (s : string) : string :=
  match s with
  | EmptyString => EmptyString
  | String c rest => if is_whitespace c then lstrip rest else s
  end.

(** [rstrip] keeps a character when it is not white space or when
    something is kept after it. *)
Fixpoint rstrip (s : string) : string :=
  match s with
  | EmptyString => EmptyString
  | String c rest =>
      match rstrip rest with
      | EmptyString => if is_whitespace c then EmptyString else String c EmptyString
      | kept => String c kept
      end
  end.

(** [s.strip()] *)
Definition strip (s : string) : string := rstrip (lstrip s).

(** [sep.join(parts)] *)
Fixpoint join (sep : string) (parts : list string) : string :=
  match parts with
  | [] => ""
  | [p] => p
  | p :: rest => p +:+ sep +:+ join sep rest
  end.

(** [len(n) > 0] *)
Definition nonempty (n : string) : bool := (0 <? String.length n)%nat.

(** ** JSON values and dicts *)

Inductive json : Type :=
| JNull
| JBool (b : bool)
| JNum (mantissa exponent : Z)
| JStr (s : string)
| JList (items : list json)
| JDict (entries : list (string * json)).

Lemma json_eq_dec : forall x y : json, {x = y} + {x <> y}.
Proof.
  fix IH 1. intros x y.
  decide equality;
    try solve [apply Z.eq_dec | apply string_dec | apply Bool.bool_dec].
  - apply (List.list_eq_dec IH).
  - apply List.list_eq_dec. decide equality. apply string_dec.
Defined.

#[global] Instance json_eq_decision : EqDecision json := json_eq_dec.

(** A dict whose keys are strings, in insertion order. *)
Definition dict (V : Type) : Type := list (string * V).

(** [d.get(k)] ([None] when the key is missing) *)
Fixpoint dict_get {V} (k : string) (d : dict V) : option V :=
  match d with
  | [] => None
  | (k', v) :: rest => if String.eqb k k' then Some v else dict_get k rest
  end.

(** [d[k] = v]: an existing key keeps its place, a new key goes last. *)
Fixpoint dict_set {V} (k : string) (v : V) (d : dict V) : dict V :=
  match d with
  | [] => [(k, v)]
  | (k', v') :: rest =>
      if String.eqb k k' then (k', v) :: rest else (k', v') :: dict_set k v rest
  end.

(** ** Exceptions *)

Inductive exn : Type :=
| KeyError (key : string)
| ValueError (msg : string)
| TypeError (msg : string)
| RequestError (msg : string).

Inductive result (A : Type) : Type :=
| Ok (a : A)
| Raise (e : exn).

Arguments Ok {A} a.
Arguments Raise {A} e.

#[global] Instance result_ret : MRet result := fun A a => Ok a.

#[global] Instance result_bind : MBind result := fun A B k r =>
  match r with
  | Ok a => k a
  | Raise e => Raise e
  end.

#[global] Instance result_fmap : FMap result := fun A B f r =>
  match r with
  | Ok a => Ok (f a)
  | Raise e => Raise e
  end.

(** ** Records of the two sources *)

(** One route of administration as the graph API returns it: the query
    asks for [name], [dose] and [duration] of every route; a route with no
    data has [duration = JNull]. *)
Record RouteRecord : Type := {
  roa_name : string;
  roa_dose : json;
  roa_duration : json }.

#[global] Instance RouteRecord_eq_dec : EqDecision RouteRecord.
Proof. intros x y. unfold Decision. decide equality; apply json_eq_dec || apply string_dec. Defined.

Module Substance.

(** A record of either source.  Source A (PsychonautWiki) records carry
    [url], [name], [aliases], [data], [roas]; Source B (TripSit) records
    carry [name], [pretty_name], [aliases], [properties], [combos],
    [links].  Keys the merge never reads are left out. *)
Record t : Type := {
  name : option string;
  pretty_name : option string;
  aliases : option (list string);
  url : option string;
  data : option (dict json);
  roas : option (list RouteRecord);
  properties : option (dict string);
  combos : option (dict (dict json));
  links : option (dict string) }.

(** The empty dict [{}]. *)
Definition empty : t :=
  {| name := None; pretty_name := None; aliases := None; url := None;
     data := None; roas := None; properties := None; combos := None;
     links := None |}.

(** Truth value of a dict: it has at least one key.  The loop tests it on
    the outcome of a look-up only, and a record that matches a name has
    one of the keys [name], [pretty_name], [aliases] ([match_truthy]). *)
Definition truthy (s : t) : bool :=
  match s with
  | {| name := None; pretty_name := None; aliases := None; url := None;
       data := None; roas := None; properties := None; combos := None;
       links := None |} => false
  | _ => true
  end.

End Substance.

#[global] Instance substance_eq_dec : EqDecision Substance.t.
Proof. solve_decision. Defined.

(** ** Name resolver *)

(** [any(l)] *)
Definition any (l : list bool) : bool := existsb id l.

(** [substance_name_match(name, substance)]: the list of comparisons with
    the values under [name] and [pretty_name] (for the keys the record
    has), followed by the comparisons with the aliases. *)
Definition substance_name_match (name : string) (substance : Substance.t) : bool :=
  let lower_name := lower name in
  any (map (fun v => String.eqb lower_name (lower v))
         (option_list (Substance.name substance)
          ++ option_list (Substance.pretty_name substance))
       ++ map (fun alias => String.eqb lower_name (lower alias))
            (default [] (Substance.aliases substance))).

(** [find_substance_in_data(data, name)]: the first record that matches. *)
Definition find_substance_in_data (data : list Substance.t) (name : string)
  : option Substance.t :=
  List.find (substance_name_match name) data.

(** [l.remove(x)]: drops the first element equal to [x]; [ValueError] when
    there is none.  Equality here is equality of the embedded values; the
    loop only removes a record it has just found, which is the first
    element that matches the name and so the first that is equal to it
    ([list_remove_first_match]). *)
Fixpoint list_remove {A} `{EqDecision A} (x : A) (l : list A) : result (list A) :=
  match l with
  | [] => Raise (ValueError "list.remove(x): x not in list")
  | y :: rest =>
      if decide (y = x) then Ok rest else cons y <$> list_remove x rest
  end.

(** The find-and-consume block of the merge loop:
    [s = find_substance_in_data(data, name)], then [data.remove(s)] when
    [s] is truthy and [s = {}] otherwise.  Returns the record used for the
    merge and the list as it is left. *)
Definition find_and_consume (data : list Substance.t) (name : string)
  : result (Substance.t * list Substance.t) :=
  match find_substance_in_data data name with
  | Some s =>
      if Substance.truthy s
      then data' ← list_remove s data; Ok (s, data')
      else Ok (Substance.empty, data)
  | None => Ok (Substance.empty, data)
  end.

(** ** Sorting and sets *)

(** [sorted(l, key=key)], a stable sort: an element goes in front of the
    first element of the sorted tail whose key is not smaller. *)
Fixpoint insert_by {A} (key : A -> string) (x : A) (l : list A) : list A :=
  match l with
  | [] => [x]
  | y :: rest =>
      if String.leb (key x) (key y) then x :: l else y :: insert_by key x rest
  end.

Definition sorted_by {A} (key : A -> string) (l : list A) : list A :=
  foldr (insert_by key) [] l.

(** [sorted(l)] on strings *)
Definition sorted (l : list string) : list string := sorted_by id l.

(** [sorted(set(map(lambda s: s.get("name", "").lower(), pw) + map(..., ts)))] *)
Definition all_substance_names (pw_substance_data ts_substances_data : list Substance.t)
  : list string :=
  let lowered :=
    map (fun s => lower (default "" (Substance.name s))) in
  sorted (elements (list_to_set (C := gset string)
                      (lowered pw_substance_data ++ lowered ts_substances_data))).

(** ** Fixed tables *)

Definition roa_name_aliases : dict (list string) :=
  [("iv", ["intravenous"]); ("intravenous", ["iv"]);
   ("im", ["intramuscular"]); ("intramuscular", ["im"]);
   ("insufflated", ["snorted"]); ("snorted", ["insufflated"]);
   ("vaporized", ["vapourized"]); ("vapourized", ["vaporized"])].

(** [roa_matches_name(roa, name)] (defined by the program, not called by
    the merge) *)
Definition roa_matches_name (roa : RouteRecord) (name : string) : bool :=
  let aliases := default [] (dict_get (lower name) roa_name_aliases) in
  String.eqb (lower (roa_name roa)) (lower name)
  || bool_decide (lower (roa_name roa) ∈ aliases).

Definition ts_combo_ignore : list string := ["benzos"].

Definition ts_combo_transformations : dict string :=
  [("lsd", "LSD"); ("mushrooms", "Mushrooms"); ("dmt", "DMT");
   ("mescaline", "Mescaline"); ("dox", "DOx"); ("nbomes", "NBOMes");
   ("2c-x", "2C-x"); ("2c-t-x", "2C-T-x"); ("amt", "aMT");
   ("5-meo-xxt", "5-MeO-xxT"); ("cannabis", "Cannabis");
   ("ketamine", "Ketamine"); ("mxe", "MXE"); ("dxm", "DXM"); ("pcp", "PCP");
   ("nitrous", "Nitrous"); ("amphetamines", "Amphetamines");
   ("mdma", "MDMA"); ("cocaine", "Cocaine"); ("caffeine", "Caffeine");
   ("alcohol", "Alcohol"); ("ghb/gbl", "GHB/GBL"); ("opioids", "Opioids");
   ("tramadol", "Tramadol"); ("benzodiazepines", "Benzodiazepines");
   ("maois", "MAOIs"); ("ssris", "SSRIs")].

(** ** The merged record *)

Module CanonicalSubstance.

Record t : Type := {
  url : string;
  experiencesUrl : option string;
  name : string;
  aliases : list string;
  aliasesStr : string;
  summary : option string;
  reagents : option string;
  classes : option json;
  toxicity : option json;
  addictionPotential : option json;
  tolerance : option json;
  crossTolerances : option json;
  roas : list RouteRecord;
  interactions : option (list (dict json)) }.

End CanonicalSubstance.

(** ** Field mergers

    The two records being merged are the two cells of a store; a merger is
    a computation that reads them, may write them, and may raise. *)

Record merge_pair : Type := {
  pw_substance : Substance.t;
  ts_substance : Substance.t }.

Definition M (A : Type) : Type := merge_pair -> result A * merge_pair.

#[global] Instance M_ret : MRet M := fun A a σ => (Ok a, σ).

#[global] Instance M_bind : MBind M := fun A B k m σ =>
  match m σ with
  | (Ok a, σ') => k a σ'
  | (Raise e, σ') => (Raise e, σ')
  end.

Definition read_pw : M Substance.t := fun σ => (Ok (pw_substance σ), σ).
Definition read_ts : M Substance.t := fun σ => (Ok (ts_substance σ), σ).

(** A computation that touches no cell. *)
Definition lift {A} (r : result A) : M A := fun σ => (r, σ).

(** A record with its [combos] entry replaced. *)
Definition with_combos (s : Substance.t) (entries : option (dict (dict json)))
  : Substance.t :=
  {| Substance.name := Substance.name s;
     Substance.pretty_name := Substance.pretty_name s;
     Substance.aliases := Substance.aliases s;
     Substance.url := Substance.url s;
     Substance.data := Substance.data s;
     Substance.roas := Substance.roas s;
     Substance.properties := Substance.properties s;
     Substance.combos := entries;
     Substance.links := Substance.links s |}.

(** The combo dicts live inside the Source B record: writing them writes
    the record. *)
Definition write_ts_combos (entries : dict (dict json)) : M unit := fun σ =>
  (Ok tt,
   {| pw_substance := pw_substance σ;
      ts_substance := with_combos (ts_substance σ) (Some entries) |}).

(** [filter(lambda n: n is not None and len(n) > 0, l)] *)
Definition keep_names (l : list (option string)) : list string :=
  flat_map (fun n => match n with
                     | Some s => if nonempty s then [s] else []
                     | None => []
                     end) l.

(** [min(names, key=len)]: the first of the shortest; [ValueError] on the
    empty list. *)
Definition min_by_len (names : list string) : result string :=
  match names with
  | [] => Raise (ValueError "min() arg is an empty sequence")
  | n :: rest =>
      Ok (fold_left (fun best m =>
                       if (String.length m <? String.length best)%nat
                       then m else best) rest n)
  end.

(** [pw_substance.get("url") or f"https://drugs.tripsit.me/{ts_substance['name']}"] *)
Definition merge_url (pw ts : Substance.t) : result string :=
  let from_ts :=
    match Substance.name ts with
    | Some n => Ok ("https://drugs.tripsit.me/" +:+ n)
    | None => Raise (KeyError "name")
    end in
  match Substance.url pw with
  | Some u => if nonempty u then Ok u else from_ts
  | None => from_ts
  end.

(** The display name: [min] by length over the names that are there. *)
Definition choose_name (pw ts : Substance.t) : result string :=
  min_by_len (keep_names [Substance.name pw; Substance.pretty_name ts]).

(** The names the alias set is built from, before lowercasing. *)
Definition alias_sources (pw ts : Substance.t) : list string :=
  keep_names ([Substance.name pw; Substance.pretty_name ts]
              ++ map Some (default [] (Substance.aliases pw))
              ++ map Some (default [] (Substance.aliases ts))).

(** [aliases]: the set of lowercased names, without the lowercased chosen
    name, sorted. *)
Definition merge_aliases (pw ts : Substance.t) (name : string) : list string :=
  let aliases : gset string := list_to_set (map lower (alias_sources pw ts)) in
  let aliases :=
    if bool_decide (lower name ∈ aliases) then aliases ∖ {[lower name]}
    else aliases in
  sorted (elements aliases).

(** [ts_properties.get(key, "").strip()], with the empty string turned into
    [None] *)
Definition text_property (ts_properties : dict string) (key : string)
  : option string :=
  let text := strip (default "" (dict_get key ts_properties)) in
  if negb (nonempty text) then None else Some text.

(** [roai["duration"] is None] *)
Definition duration_is_none (roai : RouteRecord) : bool :=
  bool_decide (roa_duration roai = JNull).

(** The loop that keeps the routes with a duration. *)
Definition filter_roas (roas : list RouteRecord) : list RouteRecord :=
  List.filter (fun roai => negb (duration_is_none roai)) roas.

(** The loop over [combos.items()]: an ignored key is passed over; any
    other key is looked up in the display-name table ([KeyError] when it
    is not there), the name is stored in the combo dict itself, and the
    dict joins the interactions.  Returns the interactions (or the
    exception) and the combo dicts as the loop leaves them. *)
Fixpoint transform_combos (entries : dict (dict json))
  : result (list (dict json)) * dict (dict json) :=
  match entries with
  | [] => (Ok [], [])
  | (key, combo_data) :: rest =>
      if bool_decide (key ∈ ts_combo_ignore) then
        let '(r, rest') := transform_combos rest in
        (r, (key, combo_data) :: rest')
      else
        match dict_get key ts_combo_transformations with
        | None => (Raise (KeyError key), entries)
        | Some display =>
            let combo_data' := dict_set "name" (JStr display) combo_data in
            let '(r, rest') := transform_combos rest in
            (cons combo_data' <$> r, (key, combo_data') :: rest')
        end
  end.

(** [i["name"]] of an interaction; the loop above has put a string there. *)
Definition interaction_name (i : dict json) : string :=
  match dict_get "name" i with
  | Some (JStr s) => s
  | _ => ""
  end.

(** [interactions]: [None] unless [combos] is a non-empty dict. *)
Definition merge_interactions : M (option (list (dict json))) :=
  ts ← read_ts;
  match Substance.combos ts with
  | Some (entry :: more) =>
      let '(r, entries') := transform_combos (entry :: more) in
      _ ← write_ts_combos entries';
      interactions ← lift r;
      mret (Some (sorted_by interaction_name interactions))
  | _ => mret None
  end.

(** ** Bioavailability text

    [re.findall(r"([a-zA-Z\/]+)[.:\s]+([0-9\.%\s\+/\-]+)", text)] on the
    characters of the text. *)

Definition code_in (lo hi : nat) (c : ascii) : bool :=
  (lo <=? nat_of_ascii c)%nat && (nat_of_ascii c <=? hi)%nat.

(** [[a-zA-Z\/]] *)
Definition is_route_char (c : ascii) : bool :=
  code_in 97 122 c || code_in 65 90 c || Ascii.eqb c "/".

(** [[.:\s]] *)
Definition is_sep_char (c : ascii) : bool :=
  Ascii.eqb c "." || Ascii.eqb c ":" || is_whitespace c.

(** [[0-9\.%\s\+/\-]] *)
Definition is_value_char (c : ascii) : bool :=
  code_in 48 57 c || Ascii.eqb c "." || Ascii.eqb c "%" || is_whitespace c
  || Ascii.eqb c "+" || Ascii.eqb c "/" || Ascii.eqb c "-".

(** The longest prefix of characters of a class, and the rest. *)
Fixpoint span (p : ascii -> bool) (s : list ascii) : list ascii * list ascii :=
  match s with
  | [] => ([], [])
  | c :: rest =>
      if p c then let '(run, tail) := span p rest in (c :: run, tail)
      else ([], s)
  end.

(** What the separators hand back when no value character follows them:
    the suffix of the run that starts at its last value character, the
    first separator left aside. *)
Fixpoint give_back (seps : list ascii) : option (list ascii) :=
  match seps with
  | [] => None
  | c :: rest =>
      match give_back rest with
      | Some suffix => Some suffix
      | None => if is_value_char c then Some seps else None
      end
  end.

(** One match attempt at the head of [s]: the two groups and what is left
    after the match. *)
Definition match_at (s : list ascii)
  : option (list ascii * list ascii * list ascii) :=
  match span is_route_char s with
  | ([], _) => None
  | (route, after_route) =>
      match span is_sep_char after_route with
      | ([], _) => None
      | (sep1 :: seps, after_seps) =>
          match span is_value_char after_seps with
          | (v :: value, rest) => Some (route, v :: value, rest)
          | ([], _) =>
              match give_back seps with
              | Some suffix =>
                  let '(value, rest) := span is_value_char (suffix ++ after_seps) in
                  Some (route, value, rest)
              | None => None
              end
          end
      end
  end.

(** The scan of [findall]: a match is recorded and the scan goes on after
    it, a failure moves one character on.  Every step consumes a
    character, so the length of the text bounds the number of steps. *)
Fixpoint findall_from (steps : nat) (s : list ascii)
  : list (list ascii * list ascii) :=
  match steps, s with
  | 0, _ | _, [] => []
  | S steps', _ :: tail =>
      match match_at s with
      | Some (route, value, rest) => (route, value) :: findall_from steps' rest
      | None => findall_from steps' tail
      end
  end.

Definition findall (text : string) : list (string * string) :=
  let s := list_ascii_of_string text in
  map (fun '(route, value) =>
         (string_of_list_ascii route, string_of_list_ascii value))
      (findall_from (length s) s).

(** [value.strip(". \t")] *)
Definition is_dot_space_tab (c : ascii) : bool :=
  Ascii.eqb c "." || Ascii.eqb c " " || Ascii.eqb c "009".

Fixpoint lstrip_chars (p : ascii -> bool) (s : list ascii) : list ascii :=
  match s with
  | [] => []
  | c :: rest => if p c then lstrip_chars p rest else s
  end.

Definition strip_chars (p : ascii -> bool) (s : string) : string :=
  string_of_list_ascii
    (rev (lstrip_chars p (rev (lstrip_chars p (list_ascii_of_string s))))).

(** The mapping from lowercased route name to trimmed value. *)
Definition parse_bioavailability (ts_properties : dict string) : dict string :=
  let ts_bioavailability_str := strip (default "" (dict_get "bioavailability" ts_properties)) in
  if nonempty ts_bioavailability_str then
    fold_left (fun acc '(roa_name, value) =>
                 dict_set (lower roa_name) (strip_chars is_dot_space_tab value) acc)
              (findall ts_bioavailability_str) []
  else [].

(** ** The merge of one pair *)

(** The body of the merge loop from [ts_properties = ...] down to the
    [append]: [None] is the [continue] on an empty route list, [Some] the
    record that is appended. *)
Definition merge_fields : M (option CanonicalSubstance.t) :=
  pw ← read_pw;
  ts ← read_ts;
  let ts_properties := default [] (Substance.properties ts) in
  url ← lift (merge_url pw ts);
  let ts_links := default [] (Substance.links ts) in
  let experiences_url := dict_get "experiences" ts_links in
  name ← lift (choose_name pw ts);
  let aliases := merge_aliases pw ts name in
  let summary := text_property ts_properties "summary" in
  let test_kits := text_property ts_properties "test-kits" in
  let ts_bioavailability := parse_bioavailability ts_properties in
  let pw_data := default [] (Substance.data pw) in
  let classes := dict_get "class" pw_data in
  let toxicity := dict_get "toxicity" pw_data in
  let addiction_potential := dict_get "addictionPotential" pw_data in
  let tolerance := dict_get "tolerance" pw_data in
  let cross_tolerances := dict_get "crossTolerances" pw_data in
  let pw_roas := default [] (Substance.roas pw) in
  let roas := [] ++ pw_roas in
  interactions ← merge_interactions;
  let roas := filter_roas roas in
  if (length roas <? 1)%nat then mret None
  else
    mret (Some
      {| CanonicalSubstance.url := url;
         CanonicalSubstance.experiencesUrl := experiences_url;
         CanonicalSubstance.name := name;
         CanonicalSubstance.aliases := aliases;
         CanonicalSubstance.aliasesStr := join "," aliases;
         CanonicalSubstance.summary := summary;
         CanonicalSubstance.reagents := test_kits;
         CanonicalSubstance.classes := classes;
         CanonicalSubstance.toxicity := toxicity;
         CanonicalSubstance.addictionPotential := addiction_potential;
         CanonicalSubstance.tolerance := tolerance;
         CanonicalSubstance.crossTolerances := cross_tolerances;
         CanonicalSubstance.roas := roas;
         CanonicalSubstance.interactions := interactions |}).

(** ** The merge loop *)

(** The part of an iteration after the two look-ups: when neither source
    has a record the name is skipped, otherwise the pair is merged (the
    store of the pair is dropped with the pair). *)
Definition merge_records (pw ts : Substance.t)
  : result (option CanonicalSubstance.t) :=
  if negb (Substance.truthy pw) && negb (Substance.truthy ts) then Ok None
  else fst (merge_fields {| pw_substance := pw; ts_substance := ts |}).

(** What one iteration does with the two lists and whether it appends:
    both records are looked up and consumed, then merged. *)
Definition merge_body (pw_substance_data ts_substances_data : list Substance.t)
    (name : string)
  : result (list Substance.t * list Substance.t * option CanonicalSubstance.t) :=
  '(pw, pw_rest) ← find_and_consume pw_substance_data name;
  '(ts, ts_rest) ← find_and_consume ts_substances_data name;
  appended ← merge_records pw ts;
  Ok (pw_rest, ts_rest, appended).

(** [for name in all_substance_names: ...], with [substance_data] growing
    at its end. *)
Fixpoint merge_loop (names : list string)
    (pw_substance_data ts_substances_data : list Substance.t)
    (substance_data : list CanonicalSubstance.t)
  : result (list CanonicalSubstance.t) :=
  match names with
  | [] => Ok substance_data
  | name :: rest =>
      '(pw_rest, ts_rest, appended) ←
        merge_body pw_substance_data ts_substances_data name;
      merge_loop rest pw_rest ts_rest (substance_data ++ option_list appended)
  end.

(** The whole reconciliation: the output list, or the exception that ends
    the program. *)
Definition reconcile (pw_substance_data ts_substances_data : list Substance.t)
  : result (list CanonicalSubstance.t) :=
  merge_loop (all_substance_names pw_substance_data ts_substances_data)
    pw_substance_data ts_substances_data [].

(** ** The iterations of the loop

    The same loop, keeping for every iteration its name, the pair it
    merged and what it appended. *)
Record iteration : Type := {
  it_name : string;
  it_pw : Substance.t;
  it_ts : Substance.t;
  it_appended : option CanonicalSubstance.t }.

Fixpoint merge_iterations (names : list string)
    (pw_substance_data ts_substances_data : list Substance.t)
  : result (list iteration) :=
  match names with
  | [] => Ok []
  | name :: rest =>
      '(pw, pw_rest) ← find_and_consume pw_substance_data name;
      '(ts, ts_rest) ← find_and_consume ts_substances_data name;
      appended ← merge_records pw ts;
      later ← merge_iterations rest pw_rest ts_rest;
      Ok ({| it_name := name; it_pw := pw; it_ts := ts;
             it_appended := appended |} :: later)
  end.

(** The records appended over a run of iterations, in order. *)
Definition appended_records (its : list iteration) : list CanonicalSubstance.t :=
  flat_map (fun it => option_list (it_appended it)) its.

(** ** The retry helper and the per-substance query *)

(** What the helper does besides calling: it prints the exception and
    sleeps. *)
Inductive event : Type :=
| Called
| Printed (e : exn)
| Slept (seconds : nat).

(** One element of [["data"]["substances"]] in the answer to the point
    query: the route list under [roas], and the other keys. *)
Record api_substance : Type := {
  api_roas : option (list RouteRecord);
  api_fields : dict json }.

(** [d.pop(k)] for a key that may be missing *)
Fixpoint dict_pop {V} (k : string) (d : dict V) : dict V :=
  match d with
  | [] => []
  | (k', v) :: rest =>
      if String.eqb k k' then rest else (k', v) :: dict_pop k rest
  end.

(** How the processing of one substance page ends: [continue], the
    [append] of a record, or [exit(code)]. *)
Inductive item_outcome : Type :=
| Skipped
| Appended (s : Substance.t)
| Exited (code : nat).

Section Fetch.

(** The outside world, and a call that answers or raises and changes it. *)
Context {W A : Type}.
Variable func : W -> result A * W.

(** [while attempt < 3: try: return func() except ...: attempt += 1; sleep(1)],
    by the number [3 - attempt] of attempts that remain; falling out of
    the loop returns [None]. *)
Fixpoint try_attempts (remaining : nat) (w : W) : option A * W * list event :=
  match remaining with
  | 0 => (None, w, [])
  | S remaining' =>
      match func w with
      | (Ok a, w') => (Some a, w', [Called])
      | (Raise e, w') =>
          let '(r, w'', log) := try_attempts remaining' w' in
          (r, w'', Called :: Printed e :: Slept 1 :: log)
      end
  end.

Definition try_three_times (w : W) : option A * W * list event :=
  try_attempts 3 w.

End Fetch.

Section CallSite.

Context {W : Type}.
Variable query : W -> result (list api_substance) * W.

(** The statements after [data = try_three_times(...)] up to the [append],
    inside the [try] of the page loop: [len(data)] raises on [None],
    [len(data) == 0] is the [continue] ([Ok None]), otherwise the record is
    built from [data[0]]. *)
Definition query_body (url name : string) (common_names : list string)
    (data : option (list api_substance)) : result (option Substance.t) :=
  match data with
  | None => Raise (TypeError "object of type 'NoneType' has no len()")
  | Some [] => Ok None
  | Some (first :: _) =>
      let fields := dict_pop "name" (api_fields first) in
      match api_roas first with
      | None => Raise (KeyError "roas")
      | Some roas =>
          Ok (Some {| Substance.name := Some name;
                      Substance.pretty_name := None;
                      Substance.aliases := Some common_names;
                      Substance.url := Some url;
                      Substance.data := Some fields;
                      Substance.roas := Some roas;
                      Substance.properties := None;
                      Substance.combos := None;
                      Substance.links := None |})
      end
  end.

(** The same with the bare [except: ... exit(1)] of the page loop around
    it, in a run in which no interrupt arrives.  The other handler of the
    loop, [except KeyboardInterrupt: ... exit(0)], is in
    [scrape_page_sigint] below. *)
Definition query_call_site (url name : string) (common_names : list string)
    (w : W) : item_outcome * W * list event :=
  let '(data, w', log) := try_three_times query w in
  let outcome :=
    match query_body url name common_names data with
    | Ok None => Skipped
    | Ok (Some s) => Appended s
    | Raise _ => Exited 1
    end in
  (outcome, w', log).

End CallSite.

(** ** The page scraper

    The part of the Source A page loop that does not fetch or parse: the
    cleaning of a common name, the decision to skip a page, the alias list
    of a page, and the loop itself.  What the loop reads from a fetched
    page (the title, the number of "Routes of Administration" text nodes,
    the text of the cell next to "Common names") is given. *)

(** The end of the string for [$]: the very end, or the place before a
    newline that ends the string.  None of the patterns below ends in a
    newline, so a match ends at the first of these when the string ends in
    a newline and at the second otherwise. *)
Definition split_final_newline (s : list ascii) : list ascii * list ascii :=
  match rev s with
  | "010"%char :: reversed => (rev reversed, ["010"%char])
  | _ => (s, [])
  end.

(** [re.sub(pattern + "$", "", s)] for a pattern given by what it leaves:
    [at_end] reads the string backwards from the end and gives what is
    left of it (backwards) when the pattern matches there. *)
Definition sub_at_end (at_end : list ascii -> option (list ascii)) (s : list ascii)
  : list ascii :=
  let '(body, newline) := split_final_newline s in
  match at_end (rev body) with
  | Some reversed => rev reversed ++ newline
  | None => s
  end.

(** The first substitution: a double quote at the start is removed. *)
Definition sub_leading_quote (s : list ascii) : list ascii :=
  match s with
  | "034"%char :: rest => rest
  | _ => s
  end.

(** One given character before the end (the double quote, the period). *)
Definition one_char_at_end (c : ascii) (reversed : list ascii) : option (list ascii) :=
  match reversed with
  | c' :: rest => if Ascii.eqb c' c then Some rest else None
  | [] => None
  end.

Definition is_digit (c : ascii) : bool := code_in 48 57 c.

(** A citation mark before the end: digits (or none) in square
    brackets, with the double quote in front of it when there is one. *)
Definition citation_at_end (reversed : list ascii) : option (list ascii) :=
  match reversed with
  | "]"%char :: rest =>
      match snd (span is_digit rest) with
      | "["%char :: before =>
          Some (match before with
                | "034"%char :: before' => before'
                | _ => before
                end)
      | _ => None
      end
  | _ => None
  end.

(** Whether [prefix] starts [s], and what follows it. *)
Fixpoint strip_prefix (prefix s : list ascii) : option (list ascii) :=
  match prefix, s with
  | [], _ => Some s
  | p :: prefix', c :: s' => if Ascii.eqb p c then strip_prefix prefix' s' else None
  | _ :: _, [] => None
  end.

(** The words [More names.] before the end, with all the white space in
    front of them. *)
Definition more_names_at_end (reversed : list ascii) : option (list ascii) :=
  match strip_prefix (rev (list_ascii_of_string "More names.")) reversed with
  | Some before => Some (lstrip_chars is_whitespace before)
  | None => None
  end.

(** [pw_clean_common_name(name)]: the five substitutions, then [strip]. *)
Definition pw_clean_common_name (name : string) : string :=
  let name := list_ascii_of_string name in
  let name := sub_leading_quote name in
  let name := sub_at_end (one_char_at_end "034") name in
  let name := sub_at_end citation_at_end name in
  let name := sub_at_end more_names_at_end name in
  let name := sub_at_end (one_char_at_end ".") name in
  strip (string_of_list_ascii name).

(** [text.split(", ")] on the characters of the text, [piece] being the
    piece read so far, backwards. *)
Fixpoint split_comma_space (piece s : list ascii) : list (list ascii) :=
  match s with
  | [] => [rev piece]
  | c :: rest =>
      match c, rest with
      | ","%char, " "%char :: rest' => rev piece :: split_comma_space [] rest'
      | _, _ => split_comma_space (c :: piece) rest
      end
  end.

Definition split_names (text : string) : list string :=
  map string_of_list_ascii (split_comma_space [] (list_ascii_of_string text)).

(** [name.startswith("Experience:")] *)
Definition is_experience (name : string) : bool :=
  match strip_prefix (list_ascii_of_string "Experience:") (list_ascii_of_string name) with
  | Some _ => true
  | None => false
  end.

(** [pw_should_skip(name, soup)]: [name] is [None] when the page has no
    heading; [roa_sections] is
    [len(soup.find_all(text="Routes of Administration"))]. *)
Definition pw_should_skip (name : option string) (roa_sections : nat) : bool :=
  match name with
  | None => true
  | Some n => negb (nonempty n) || is_experience n || (roa_sections =? 0)%nat
  end.

(** The alias list of a page: the cleaned pieces of the common-names cell
    ([cell] is [None] when the page has no "Common names"), with the name
    the API has for the substance, without the page name, sorted. *)
Definition common_names (cell : option string) (api_name name : string)
  : list string :=
  let cleaned_common_names : gset string :=
    match cell with
    | Some text => list_to_set (map pw_clean_common_name (split_names text))
    | None => ∅
    end in
  let cleaned_common_names := cleaned_common_names ∪ {[api_name]} in
  sorted (List.filter (fun n => negb (String.eqb n name))
            (elements cleaned_common_names)).

(** What the loop has of one entry of the url list once the page is
    fetched and parsed. *)
Record page : Type := {
  page_url : string;
  page_api_name : string;
  page_title : option string;
  page_roa_sections : nat;
  page_common_names : option string }.

Section PageLoop.

Context {W : Type}.

(** The point query for the substance of a given API name. *)
Variable point_query : string -> W -> result (list api_substance) * W.

(** The body of the page loop for one page, in a run in which no interrupt
    arrives. *)
Definition scrape_page (p : page) (w : W) : item_outcome * W * list event :=
  if pw_should_skip (page_title p) (page_roa_sections p) then (Skipped, w, [])
  else
    let name := default "" (page_title p) in
    query_call_site (point_query (page_api_name p)) (page_url p) name
      (common_names (page_common_names p) (page_api_name p) name) w.

(** [for idx, substance in enumerate(pw_substance_urls_data): ...] in a
    run in which no interrupt arrives: the list of records when the loop
    runs to its end, the exit status when a page ends the program. *)
Fixpoint scrape_pages (pages : list page) (pw_substance_data : list Substance.t)
    (w : W) : (list Substance.t + nat) * W * list event :=
  match pages with
  | [] => (inl pw_substance_data, w, [])
  | p :: rest =>
      let '(outcome, w', log) := scrape_page p w in
      match outcome with
      | Exited code => (inr code, w', log)
      | Skipped =>
          let '(r, w'', log') := scrape_pages rest pw_substance_data w' in
          (r, w'', log ++ log')
      | Appended s =>
          let '(r, w'', log') := scrape_pages rest (pw_substance_data ++ [s]) w' in
          (r, w'', log ++ log')
      end
  end.

End PageLoop.

(** ** The page loop under a keyboard interrupt

    The [try] of the page loop has two handlers:
    [except KeyboardInterrupt: print(...); exit(0)] and the bare
    [except: ...; exit(1)].  [KeyboardInterrupt] is not an [Exception], so
    the [except Exception] of [try_three_times] lets it through to the
    page loop.  [sigint w] says that the user's interrupt has arrived in
    the world [w].  The world changes in the calls of the point query, so
    the interrupt is raised where the [try] of a page is entered or in a
    call of the query. *)

(** What a statement under an interrupt gives: its value, or the
    [KeyboardInterrupt] that goes up to the nearest handler for it. *)
Inductive interruptible (T : Type) : Type :=
| Returned (x : T)
| KeyboardInterrupt.

Arguments Returned {T} x.
Arguments KeyboardInterrupt {T}.

Section Sigint.

Context {W : Type}.
Variable sigint : W -> bool.

(** [try_three_times] under an interrupt: a call the interrupt arrives in
    gives neither a value nor an [Exception]; nothing is printed, there is
    no sleep and no further attempt. *)
Fixpoint try_attempts_sigint {A : Type} (func : W -> result A * W) (remaining : nat)
    (w : W) : interruptible (option A) * W * list event :=
  match remaining with
  | 0 => (Returned None, w, [])
  | S remaining' =>
      let '(r, w') := func w in
      if sigint w' then (KeyboardInterrupt, w', [Called])
      else
        match r with
        | Ok a => (Returned (Some a), w', [Called])
        | Raise e =>
            let '(r', w'', log) := try_attempts_sigint func remaining' w' in
            (r', w'', Called :: Printed e :: Slept 1 :: log)
        end
  end.

Definition try_three_times_sigint {A : Type} (func : W -> result A * W) (w : W)
  : interruptible (option A) * W * list event :=
  try_attempts_sigint func 3 w.

Variable point_query : string -> W -> result (list api_substance) * W.

(** The body of the page loop for one page, with both handlers. *)
Definition scrape_page_sigint (p : page) (w : W) : item_outcome * W * list event :=
  if sigint w then (Exited 0, w, [])
  else if pw_should_skip (page_title p) (page_roa_sections p) then (Skipped, w, [])
  else
    let name := default "" (page_title p) in
    let '(data, w', log) :=
      try_three_times_sigint (point_query (page_api_name p)) w in
    let outcome :=
      match data with
      | KeyboardInterrupt => Exited 0
      | Returned data =>
          match query_body (page_url p) name
                  (common_names (page_common_names p) (page_api_name p) name) data with
          | Ok None => Skipped
          | Ok (Some s) => Appended s
          | Raise _ => Exited 1
          end
      end in
    (outcome, w', log).

(** The page loop, with both handlers. *)
Fixpoint scrape_pages_sigint (pages : list page) (pw_substance_data : list Substance.t)
    (w : W) : (list Substance.t + nat) * W * list event :=
  match pages with
  | [] => (inl pw_substance_data, w, [])
  | p :: rest =>
      let '(outcome, w', log) := scrape_page_sigint p w in
      match outcome with
      | Exited code => (inr code, w', log)
      | Skipped =>
          let '(r, w'', log') := scrape_pages_sigint rest pw_substance_data w' in
          (r, w'', log ++ log')
      | Appended s =>
          let '(r, w'', log') := scrape_pages_sigint rest (pw_substance_data ++ [s]) w' in
          (r, w'', log ++ log')
      end
  end.

End Sigint.

(** ** Vocabulary of the properties *)

(** Strictly ascending order of strings, by character code. *)
Definition str_lt (a b : string) : Prop := String.compare a b = Lt.

(** The names of a pair as the alias policy lists them: the Source A
    name, the Source B pretty name, the Source A aliases, the Source B
    aliases. *)
Definition names_of_pair (pw ts : Substance.t) : list string :=
  option_list (Substance.name pw) ++ option_list (Substance.pretty_name ts)
  ++ default [] (Substance.aliases pw) ++ default [] (Substance.aliases ts).

(** The alias list as the policy words it: the lowercased names of the
    pair as a set, the lowercased chosen name taken out, sorted. *)
Definition union_aliases (pw ts : Substance.t) (name : string) : list string :=
  sorted (elements
            ((list_to_set (map lower (names_of_pair pw ts)) : gset string)
             ∖ {[lower name]})).

(** The strings a display name can be chosen from: the non-empty Source A
    names and the non-empty Source B pretty names, record by record. *)
Definition display_candidates (pw ts : list Substance.t) : list string :=
  keep_names (map Substance.name pw) ++ keep_names (map Substance.pretty_name ts).

(** A combo dict after the interactions loop: with the display name under
    [name] when its key is not ignored (and is in the table). *)
Definition name_combo (key : string) (combo_data : dict json) : dict json :=
  if bool_decide (key ∈ ts_combo_ignore) then combo_data
  else
    match dict_get key ts_combo_transformations with
    | Some display => dict_set "name" (JStr display) combo_data
    | None => combo_data
    end.

Definition named_combos (entries : dict (dict json)) : dict (dict json) :=
  map (fun '(key, combo_data) => (key, name_combo key combo_data)) entries.

(** A string carried by the pair an iteration merged: it is the Source A
    name or the Source B pretty name of the pair, and not empty. *)
Definition carried_by (it : iteration) (n : string) : Prop :=
  n <> ""
  /\ (Substance.name (it_pw it) = Some n \/ Substance.pretty_name (it_ts it) = Some n).

(** The iteration names where the loop appended a record give records with
    different names. *)
Definition names_differ_across_iterations (pw ts : list Substance.t) : Prop :=
  forall its,
    merge_iterations (all_substance_names pw ts) pw ts = Ok its ->
    forall it1 it2 r1 r2,
      it1 ∈ its -> it2 ∈ its -> it_name it1 <> it_name it2 ->
      it_appended it1 = Some r1 -> it_appended it2 = Some r2 ->
      CanonicalSubstance.name r1 <> CanonicalSubstance.name r2.

(** The merge of a pair leaves the two records as they were. *)
Definition merge_leaves_records (σ : merge_pair) : Prop :=
  snd (merge_fields σ) = σ.

(** The aliases of the merged record are the union as the policy words
    it. *)
Definition aliases_are_union (pw ts : Substance.t) : Prop :=
  forall c,
    merge_records pw ts = Ok (Some c) ->
    CanonicalSubstance.aliases c = union_aliases pw ts (CanonicalSubstance.name c).

(** The number of calls in a log of the retry helper. *)
Fixpoint count_calls (log : list event) : nat :=
  match log with
  | [] => 0
  | Called :: rest => S (count_calls rest)
  | _ :: rest => count_calls rest
  end.

(** ** Sample records *)

Definition hours (lo hi : Z) : json :=
  JDict [("min", JNum lo 0); ("max", JNum hi 0); ("units", JStr "hours")].

Definition oral : RouteRecord :=
  {| roa_name := "Oral";
     roa_dose := JDict [("units", JStr "mg"); ("threshold", JNum 15 0)];
     roa_duration := JDict [("total", hours 6 8)] |}.

Definition smoked : RouteRecord :=
  {| roa_name := "Smoked"; roa_dose := JNull; roa_duration := JNull |}.

(** A Source A record as the scraper appends it. *)
Definition source_a (name : string) (aliases : list string)
    (roas : list RouteRecord) : Substance.t :=
  {| Substance.name := Some name;
     Substance.pretty_name := None;
     Substance.aliases := Some aliases;
     Substance.url := Some ("https://psychonautwiki.org/wiki/" +:+ name);
     Substance.data := Some [("toxicity", JNull)];
     Substance.roas := Some roas;
     Substance.properties := None;
     Substance.combos := None;
     Substance.links := None |}.

(** A Source B record of the factsheet API. *)
Definition source_b (name : string) (pretty_name : option string)
    (combos : option (dict (dict json))) : Substance.t :=
  {| Substance.name := Some name;
     Substance.pretty_name := pretty_name;
     Substance.aliases := Some [];
     Substance.url := None;
     Substance.data := None;
     Substance.roas := None;
     Substance.properties := Some [("summary", " A summary. ")];
     Substance.combos := combos;
     Substance.links := None |}.

Definition lsd_a : Substance.t := source_a "LSD" ["Acid"] [oral; smoked].

Definition lsd_b : Substance.t :=
  source_b "lsd" (Some "Acid")
    (Some [("mdma", [("status", JStr "Low Risk & Synergy")]);
           ("benzos", [("status", JStr "Low Risk & Decrease")])]).

Definition lsd_merged : option CanonicalSubstance.t :=
  Eval vm_compute in
    match merge_records lsd_a lsd_b with
    | Ok appended => appended
    | Raise _ => None
    end.

Definition mdma_a : Substance.t := source_a "MDMA" ["Molly"; "Ecstasy"] [oral].

(** Two Source A records and a Source B record whose pretty name is the
    name of the second. *)
Definition speed_a : list Substance.t :=
  [source_a "Amfetamine sulfate" [] [oral]; source_a "Speed" [] [oral]].

Definition speed_b : list Substance.t :=
  [source_b "amfetamine sulfate" (Some "Speed") None].

Definition sample_output : list CanonicalSubstance.t :=
  Eval vm_compute in
    match reconcile [mdma_a; lsd_a] [lsd_b] with
    | Ok substance_data => substance_data
    | Raise _ => []
    end.

(** Two substances that have the same display name in both sources, and
    the iterations of the loop over them. *)
Definition same_a : list Substance.t := [mdma_a; lsd_a].

Definition same_b : list Substance.t :=
  [source_b "lsd" (Some "LSD") None; source_b "mdma" (Some "MDMA") None].

Definition same_iterations : list iteration :=
  Eval vm_compute in
    match merge_iterations (all_substance_names same_a same_b) same_a same_b with
    | Ok its => its
    | Raise _ => []
    end.

(** A point query that times out at every call. *)
Definition always_fails (w : unit) : result (list api_substance) * unit :=
  (Raise (RequestError "timed out"), w).

(** A Source A record whose common-names cell was empty: the scraper
    leaves the empty string among its aliases. *)
Definition blank_alias_a : Substance.t := source_a "LSD" [""; "Acid"] [oral].

(** A Source B record with no pretty name, and one with a combo key that
    the display-name table does not have. *)
Definition no_pretty_b : Substance.t := source_b "x" None None.

Definition odd_combo_b : Substance.t :=
  source_b "lsd" (Some "LSD") (Some [("lithium", [("status", JStr "Dangerous")])]).

(** ** Vocabulary of the further properties *)

(** The seconds slept and the exceptions printed in a log of the retry
    helper. *)
Fixpoint sleep_seconds (log : list event) : nat :=
  match log with
  | [] => 0
  | Slept seconds :: rest => seconds + sleep_seconds rest
  | _ :: rest => sleep_seconds rest
  end.

Fixpoint count_printed (log : list event) : nat :=
  match log with
  | [] => 0
  | Printed _ :: rest => S (count_printed rest)
  | _ :: rest => count_printed rest
  end.

(** A combo key the interactions loop gets past: ignored, or in the
    display-name table. *)
Definition known_combo (entry : string * dict json) : Prop :=
  fst entry ∈ ts_combo_ignore \/ is_Some (dict_get (fst entry) ts_combo_transformations).

(** The combo entries that are not ignored. *)
Definition kept_combos (entries : dict (dict json)) : dict (dict json) :=
  List.filter (fun entry => negb (bool_decide (fst entry ∈ ts_combo_ignore))) entries.

(** Ascending order of interactions, by display name. *)
Definition interaction_le (i j : dict json) : Prop :=
  String.le (interaction_name i) (interaction_name j).

(** A result that is not an exception. *)
Definition is_Ok {A} (r : result A) : Prop :=
  match r with
  | Ok _ => True
  | Raise _ => False
  end.

(** A Source A record as the scraper leaves it for the merge: a non-empty
    name and a non-empty url. *)
Definition scraped (s : Substance.t) : Prop :=
  (exists n, Substance.name s = Some n /\ n <> "")
  /\ (exists u, Substance.url s = Some u /\ u <> "").

(** A Source B record the merge can handle on its own: a name, a
    non-empty pretty name, and combo keys that are ignored or in the
    table. *)
Definition factsheet (s : Substance.t) : Prop :=
  is_Some (Substance.name s)
  /\ (exists p, Substance.pretty_name s = Some p /\ p <> "")
  /\ Forall known_combo (default [] (Substance.combos s)).

(** A character of a key of the bioavailability mapping: a lowercase
    letter or a slash. *)
Definition is_key_char (c : ascii) : bool :=
  code_in 97 122 c || Ascii.eqb c "/".

(** A character that none of the cleaning patterns looks for: not a
    double quote, a square bracket, a period or a newline. *)
Definition is_plain_char (c : ascii) : bool :=
  negb (Ascii.eqb c "034" || Ascii.eqb c "[" || Ascii.eqb c "]"
        || Ascii.eqb c "." || Ascii.eqb c "010").

Definition plain (s : list ascii) : Prop := Forall (fun c => is_plain_char c = true) s.

(** A common name as the page shows it: in double quotes, with a citation
    mark. *)
Definition quoted_cited (name digits : list ascii) : string :=
  string_of_list_ascii
    ("034"%char :: name ++ "034"%char :: "["%char :: digits ++ ["]"%char]).

(** The iterations of the loop over the sample lists. *)
Definition sample_iterations : list iteration :=
  Eval vm_compute in
    match merge_iterations (all_substance_names [mdma_a; lsd_a] [lsd_b])
            [mdma_a; lsd_a] [lsd_b] with
    | Ok its => its
    | Raise _ => []
    end.

(** A fetched page, a point query that answers at once, and the record
    the page loop makes of them. *)
Definition lsd_page : page :=
  {| page_url := "https://psychonautwiki.org/wiki/LSD";
     page_api_name := "Lysergic acid diethylamide";
     page_title := Some "LSD";
     page_roa_sections := 1;
     page_common_names := Some "Acid, Lucy[1]" |}.

Definition answers (api_name : string) (w : unit)
  : result (list api_substance) * unit :=
  (Ok [{| api_roas := Some [oral];
          api_fields := [("name", JStr api_name); ("toxicity", JNull)] |}], w).

Definition lsd_scraped : Substance.t :=
  Eval vm_compute in
    match scrape_page answers lsd_page tt with
    | (Appended s, _, _) => s
    | _ => Substance.empty
    end.

(** * Properties *)

(** ** The name resolver *)

Lemma any_true (l : list bool) : any l = true <-> In true l.
Proof.
  unfold any. rewrite existsb_exists. split.
  - intros [b [Hin Hb]]. unfold id in Hb. now subst b.
  - intros Hin. now exists true.
Qed.

Lemma in_option_list {A} (x : A) (o : option A) : In x (option_list o) <-> o = Some x.
Proof.
  destruct o as [y|]; simpl; split; intros H.
  - destruct H as [->|[]]. reflexivity.
  - injection H as ->. now left.
  - destruct H.
  - discriminate.
Qed.

(** C9: the match predicate is true exactly when the name equals,
    after lowercasing both sides, the record's name, its pretty name (when
    it has one) or one of its aliases; it is false for any other name. *)
Theorem substance_name_match_spec (name : string) (s : Substance.t) :
  substance_name_match name s = true <->
  (exists n, Substance.name s = Some n /\ lower name = lower n)
  \/ (exists p, Substance.pretty_name s = Some p /\ lower name = lower p)
  \/ (exists al a, Substance.aliases s = Some al /\ a ∈ al /\ lower name = lower a).
Proof.
  unfold substance_name_match. rewrite any_true, in_app_iff, !in_map_iff.
  setoid_rewrite in_app_iff. setoid_rewrite in_option_list.
  setoid_rewrite String.eqb_eq. split.
  - intros [[v [Hv [Hn|Hp]]]|[a [Ha Hin]]].
    + left. eauto.
    + right. left. eauto.
    + right. right. destruct (Substance.aliases s) as [al|] eqn:Hal; simpl in Hin.
      * exists al, a. rewrite list_elem_of_In. auto.
      * destruct Hin.
  - intros [[n [Hn Heq]]|[[p [Hp Heq]]|[al [a [Hal [Hin Heq]]]]]].
    + left. eauto.
    + left. eauto.
    + right. exists a. rewrite Hal. simpl. rewrite <- list_elem_of_In. auto.
Qed.

Lemma empty_not_truthy : Substance.truthy Substance.empty = false.
Proof. reflexivity. Qed.

(** A record that matches some name has one of the keys [name],
    [pretty_name], [aliases]: it is not the empty dict. *)
Lemma match_truthy (name : string) (s : Substance.t) :
  substance_name_match name s = true -> Substance.truthy s = true.
Proof.
  destruct s as [[n|] [p|] [al|] u d r pr c l]; try reflexivity.
  unfold substance_name_match. simpl. discriminate.
Qed.

Lemma find_substance_split (data : list Substance.t) (name : string) (s : Substance.t) :
  find_substance_in_data data name = Some s ->
  exists before after,
    data = before ++ s :: after
    /\ Forall (fun x => substance_name_match name x = false) before
    /\ substance_name_match name s = true.
Proof.
  unfold find_substance_in_data. induction data as [|x data IH]; simpl; [discriminate|].
  destruct (substance_name_match name x) eqn:Hx.
  - intros [= ->]. exists [], data. auto.
  - intros Hfind. destruct (IH Hfind) as (before & after & -> & Hall & Hs).
    exists (x :: before), after. auto.
Qed.

Lemma find_substance_none (data : list Substance.t) (name : string) :
  find_substance_in_data data name = None ->
  Forall (fun x => substance_name_match name x = false) data.
Proof.
  unfold find_substance_in_data. intros H. apply Forall_forall. intros x Hx.
  apply list_elem_of_In in Hx. exact (List.find_none _ _ H x Hx).
Qed.

(** [remove] takes out the first element that is equal; when no element
    before [s] matches the name [s] matches, that is [s] itself. *)
Lemma list_remove_first_match (name : string) (before after : list Substance.t)
    (s : Substance.t) :
  Forall (fun x => substance_name_match name x = false) before ->
  substance_name_match name s = true ->
  list_remove s (before ++ s :: after) = Ok (before ++ after).
Proof.
  intros Hall Hs. induction Hall as [|x before Hx Hall IH]; simpl.
  - destruct (decide (s = s)); [reflexivity|congruence].
  - destruct (decide (x = s)) as [->|_]; [congruence|]. now rewrite IH.
Qed.

(** The two outcomes of a find-and-consume: the first matching record,
    taken out of the list, or the empty record and the list as it was.  It
    never raises. *)
Lemma find_and_consume_cases (data : list Substance.t) (name : string) :
  (exists s before after,
      data = before ++ s :: after
      /\ Forall (fun x => substance_name_match name x = false) before
      /\ substance_name_match name s = true
      /\ find_substance_in_data data name = Some s
      /\ find_and_consume data name = Ok (s, before ++ after))
  \/ (find_substance_in_data data name = None
      /\ find_and_consume data name = Ok (Substance.empty, data)).
Proof.
  unfold find_and_consume.
  destruct (find_substance_in_data data name) as [s|] eqn:Hfind; [left|right; auto].
  destruct (find_substance_split _ _ _ Hfind) as (before & after & Hdata & Hall & Hs).
  exists s, before, after. rewrite (match_truthy _ _ Hs).
  rewrite Hdata at 2. rewrite (list_remove_first_match name); auto.
Qed.

(** ** Consume-once *)

(** C5: when [r] matches both names and occurs once in the list, the two
    find-and-consume calls made one after the other (the second on the
    list the first one leaves) both return, and at most one of them
    returns [r]: once returned, [r] is no longer in the list. *)
Theorem consume_once (L : list Substance.t) (r : Substance.t) (n1 n2 : string) :
  n1 <> n2 ->
  substance_name_match n1 r = true ->
  substance_name_match n2 r = true ->
  count_occ substance_eq_dec L r = 1 ->
  exists r1 L1 r2 L2,
    find_and_consume L n1 = Ok (r1, L1)
    /\ find_and_consume L1 n2 = Ok (r2, L2)
    /\ (r1 = r -> r ∉ L1)
    /\ ~ (r1 = r /\ r2 = r).
Proof.
  intros _ Hm1 Hm2 Hcount.
  assert (Hne : r <> Substance.empty).
  { intros ->. apply match_truthy in Hm1. discriminate. }
  assert (Hsecond : forall L1 r2 L2,
             find_and_consume L1 n2 = Ok (r2, L2) -> r ∉ L1 -> r2 <> r).
  { intros L1 r2 L2 Hfc Hnotin.
    destruct (find_and_consume_cases L1 n2)
      as [(s & before & after & HL1 & _ & _ & _ & Hfc')|[_ Hfc']];
      rewrite Hfc' in Hfc; injection Hfc as <- <-.
    - intros ->. apply Hnotin. rewrite HL1. apply list_elem_of_In, in_elt.
    - congruence. }
  destruct (find_and_consume_cases L n1)
    as [(s & before & after & HL & _ & _ & _ & Hfc1)|[_ Hfc1]].
  - assert (Hgone : s = r -> r ∉ before ++ after).
    { intros -> Hin. apply list_elem_of_In in Hin.
      rewrite HL in Hcount. rewrite count_occ_app in Hcount. simpl in Hcount.
      destruct (substance_eq_dec r r) as [_|]; [|congruence].
      apply (count_occ_In substance_eq_dec) in Hin.
      rewrite count_occ_app in Hin. lia. }
    destruct (find_and_consume_cases (before ++ after) n2)
      as [(s2 & b2 & a2 & HL2 & _ & _ & _ & Hfc2)|[_ Hfc2]].
    + exists s, (before ++ after), s2, (b2 ++ a2).
      split; [exact Hfc1|]. split; [exact Hfc2|]. split; [exact Hgone|].
      intros [Hs Hs2]. exact (Hsecond _ _ _ Hfc2 (Hgone Hs) Hs2).
    + exists s, (before ++ after), Substance.empty, (before ++ after).
      split; [exact Hfc1|]. split; [exact Hfc2|]. split; [exact Hgone|].
      intros [_ Hs2]. congruence.
  - destruct (find_and_consume_cases L n2)
      as [(s2 & b2 & a2 & HL2 & _ & _ & _ & Hfc2)|[_ Hfc2]].
    + exists Substance.empty, L, s2, (b2 ++ a2).
      split; [exact Hfc1|]. split; [exact Hfc2|]. split.
      * intros Hs. congruence.
      * intros [Hs _]. congruence.
    + exists Substance.empty, L, Substance.empty, L.
      split; [exact Hfc1|]. split; [exact Hfc2|]. split.
      * intros Hs. congruence.
      * intros [Hs _]. congruence.
Qed.

(** ** Sorting *)

Lemma str_lt_le_ne (a b : string) : str_lt a b <-> String.le a b /\ a <> b.
Proof.
  unfold str_lt, String.le, String.leb.
  destruct (String.compare a b) eqn:Hc; simpl; split; try intuition congruence.
  - intros [_ Hne]. apply String.compare_eq_iff in Hc. contradiction.
  - intros _. split; [exact I|]. intros ->.
    pose proof (String.compare_antisym b b) as H. rewrite Hc in H. discriminate.
Qed.

Lemma leb_false_le (a b : string) : String.leb a b = false -> String.le b a.
Proof.
  intros H. destruct (String.le_total a b) as [Hab|Hba]; [|exact Hba].
  unfold String.le in Hab. rewrite H in Hab. destruct Hab.
Qed.

Lemma insert_by_perm {A} (key : A -> string) (x : A) (l : list A) :
  insert_by key x l ≡ₚ x :: l.
Proof.
  induction l as [|y l IH]; simpl; [reflexivity|].
  destruct (String.leb (key x) (key y)); [reflexivity|].
  rewrite IH. apply perm_swap.
Qed.

Lemma sorted_by_perm {A} (key : A -> string) (l : list A) : sorted_by key l ≡ₚ l.
Proof.
  induction l as [|x l IH]; simpl; [reflexivity|].
  rewrite insert_by_perm. now rewrite IH.
Qed.

Lemma insert_by_sorted (x : string) (l : list string) :
  Sorted String.le l -> Sorted String.le (insert_by id x l).
Proof.
  induction 1 as [|y l Hl IH Hhd]; simpl.
  - repeat constructor.
  - cbv [id]. destruct (String.leb x y) eqn:Hxy.
    + constructor; [now constructor|]. constructor. unfold String.le. now rewrite Hxy.
    + constructor; [exact IH|].
      destruct Hhd as [|z l Hyz]; simpl.
      * constructor. now apply leb_false_le.
      * cbv [id]. destruct (String.leb x z); constructor; auto using leb_false_le.
Qed.

Lemma sorted_Sorted (l : list string) : Sorted String.le (sorted l).
Proof.
  unfold sorted, sorted_by. induction l as [|x l IH]; simpl.
  - constructor.
  - now apply insert_by_sorted.
Qed.

Lemma StronglySorted_le_strict (l : list string) :
  StronglySorted String.le l -> NoDup l -> StronglySorted str_lt l.
Proof.
  induction 1 as [|x l Hl IH Hall]; intros Hnd; constructor.
  - apply IH. now apply NoDup_cons_1_2 in Hnd.
  - apply NoDup_cons_1_1 in Hnd. rewrite Forall_forall in Hall |- *.
    intros y Hy. apply str_lt_le_ne. split; [now apply Hall|].
    intros ->. contradiction.
Qed.

(** [sorted] of a list without repetition is strictly ascending and has
    the same members. *)
Lemma sorted_strict (l : list string) :
  NoDup l -> StronglySorted str_lt (sorted l).
Proof.
  intros Hnd. apply StronglySorted_le_strict.
  - apply Sorted_StronglySorted; [apply _|apply sorted_Sorted].
  - unfold sorted. now rewrite sorted_by_perm.
Qed.

Lemma elem_of_sorted (x : string) (l : list string) : x ∈ sorted l <-> x ∈ l.
Proof. unfold sorted. now rewrite sorted_by_perm. Qed.

Lemma str_lt_irrefl (a : string) : ~ str_lt a a.
Proof. intros H. apply str_lt_le_ne in H. now destruct H. Qed.

Lemma StronglySorted_str_lt_NoDup (l : list string) :
  StronglySorted str_lt l -> NoDup l.
Proof.
  induction 1 as [|x l Hl IH Hall]; constructor; [|exact IH].
  intros Hin. rewrite Forall_forall in Hall.
  exact (str_lt_irrefl x (Hall x Hin)).
Qed.

(** ** The merge of one pair *)

Ltac unfold_M :=
  cbv [mbind M_bind mret M_ret read_pw read_ts lift write_ts_combos].

(** The shape of [merge_fields]: the url and the name are computed first
    (either can raise, the store untouched), then the interactions, which
    may write the store, then the record is built unless the filtered route
    list is empty. *)
Lemma merge_fields_inv (σ σ' : merge_pair) (r : result (option CanonicalSubstance.t)) :
  merge_fields σ = (r, σ') ->
  let pw := pw_substance σ in
  let ts := ts_substance σ in
  (exists e, r = Raise e /\ σ' = σ
             /\ (merge_url pw ts = Raise e
                 \/ (exists u, merge_url pw ts = Ok u) /\ choose_name pw ts = Raise e))
  \/ (exists u n,
        merge_url pw ts = Ok u /\ choose_name pw ts = Ok n
        /\ σ' = snd (merge_interactions σ)
        /\ match fst (merge_interactions σ) with
           | Raise e => r = Raise e
           | Ok interactions =>
               match r with
               | Raise _ => False
               | Ok None => filter_roas (default [] (Substance.roas pw)) = []
               | Ok (Some c) =>
                   CanonicalSubstance.url c = u
                   /\ CanonicalSubstance.name c = n
                   /\ CanonicalSubstance.aliases c = merge_aliases pw ts n
                   /\ CanonicalSubstance.roas c = filter_roas (default [] (Substance.roas pw))
                   /\ CanonicalSubstance.roas c <> []
                   /\ CanonicalSubstance.interactions c = interactions
               end
           end).
Proof.
  intros H pw ts. subst pw ts. revert H. unfold merge_fields. unfold_M.
  destruct (merge_url (pw_substance σ) (ts_substance σ)) as [u|e] eqn:Hu.
  2:{ intros [= <- <-]. left. exists e. auto. }
  destruct (choose_name (pw_substance σ) (ts_substance σ)) as [n|e] eqn:Hn.
  2:{ intros [= <- <-]. left. exists e. split; [reflexivity|]. split; [reflexivity|].
      right. eauto. }
  intros H. right. exists u, n. split; [reflexivity|]. split; [reflexivity|].
  destruct (merge_interactions σ) as [[interactions|e] σ2] eqn:Hi; simpl in *.
  - destruct (filter_roas _) as [|x roas] eqn:Hr;
      simpl in H; injection H as <- <-; split; try reflexivity.
    simpl. repeat split. discriminate.
  - injection H as <- <-. auto.
Qed.

Lemma truthy_false_empty (s : Substance.t) :
  Substance.truthy s = false -> s = Substance.empty.
Proof.
  destruct s as [[?|] [?|] [?|] [?|] [?|] [?|] [?|] [?|] [?|]]; simpl;
    intros H; try discriminate H; reflexivity.
Qed.

(** What [merge_records] returns when it returns: nothing when the route
    list of the Source A record is empty after the filter, and otherwise a
    record with the chosen name, the merged aliases and the filtered
    routes. *)
Lemma merge_records_inv (pw ts : Substance.t) (appended : option CanonicalSubstance.t) :
  merge_records pw ts = Ok appended ->
  match appended with
  | None => filter_roas (default [] (Substance.roas pw)) = []
  | Some c =>
      choose_name pw ts = Ok (CanonicalSubstance.name c)
      /\ CanonicalSubstance.aliases c = merge_aliases pw ts (CanonicalSubstance.name c)
      /\ CanonicalSubstance.roas c = filter_roas (default [] (Substance.roas pw))
      /\ CanonicalSubstance.roas c <> []
  end.
Proof.
  unfold merge_records.
  destruct (Substance.truthy pw) eqn:Hpw, (Substance.truthy ts) eqn:Hts; simpl.
  4:{ intros [= <-]. now rewrite (truthy_false_empty _ Hpw). }
  all: destruct (merge_fields _) as [r σ'] eqn:Hmf; simpl; intros ->;
    apply merge_fields_inv in Hmf; simpl in Hmf;
    destruct Hmf as [(e & He & _)|(u & n & Hu & Hn & _ & Hi)]; [discriminate|];
    destruct (fst (merge_interactions _)); [|discriminate];
    destruct appended as [c|]; [|exact Hi];
    destruct Hi as (_ & Hname & Hal & Hroas & Hne & _); subst n; auto.
Qed.

(** ** Routes of an appended record *)

(** C6: when an iteration appends a record, the Source A look-up found
    a record and the appended [roas] is that record's route list without
    the routes whose duration is null, and it is not empty; when that
    filtered list is empty (or Source A has no record for the name, so
    that there are no routes at all) nothing is appended. *)
Theorem appended_roas (pw_substance_data ts_substances_data : list Substance.t)
    (name : string) (pw_rest ts_rest : list Substance.t)
    (appended : option CanonicalSubstance.t) :
  merge_body pw_substance_data ts_substances_data name
    = Ok (pw_rest, ts_rest, appended) ->
  let routes :=
    match find_substance_in_data pw_substance_data name with
    | Some pw => filter_roas (default [] (Substance.roas pw))
    | None => []
    end in
  (routes = [] -> appended = None)
  /\ (forall c, appended = Some c ->
        CanonicalSubstance.roas c = routes
        /\ CanonicalSubstance.roas c <> []
        /\ Forall (fun roa => roa_duration roa <> JNull) (CanonicalSubstance.roas c)
        /\ exists pw, find_substance_in_data pw_substance_data name = Some pw).
Proof.
  intros H routes. unfold merge_body in H.
  assert (Hpw : exists pw rest,
             find_and_consume pw_substance_data name = Ok (pw, rest)
             /\ routes = filter_roas (default [] (Substance.roas pw))).
  { subst routes.
    destruct (find_and_consume_cases pw_substance_data name)
      as [(s & before & after & _ & _ & _ & Hfind & Hfc)|[Hfind Hfc]];
      rewrite Hfind; eauto. }
  destruct Hpw as (pw & rest & Hfc & Hroutes). rewrite Hfc in H. simpl in H.
  destruct (find_and_consume ts_substances_data name) as [[ts rest']|e];
    simpl in H; [|discriminate].
  destruct (merge_records pw ts) as [r|e] eqn:Hmr; simpl in H; [|discriminate].
  injection H as <- <- <-. apply merge_records_inv in Hmr. split.
  - intros Hempty. destruct r as [c|]; [|reflexivity].
    destruct Hmr as (_ & _ & Hroas & Hne). congruence.
  - intros c ->. destruct Hmr as (_ & _ & Hroas & Hne).
    split; [congruence|]. split; [exact Hne|]. split.
    + rewrite Hroas. unfold filter_roas. apply Forall_forall. intros roa Hin.
      apply list_elem_of_In, filter_In in Hin. destruct Hin as [_ Hd].
      unfold duration_is_none in Hd. apply negb_true_iff, bool_decide_eq_false in Hd.
      exact Hd.
    + subst routes. destruct (find_substance_in_data pw_substance_data name) as [a|].
      * eauto.
      * congruence.
Qed.

(** ** The display name *)

Lemma nonempty_iff (s : string) : nonempty s = true <-> s <> "".
Proof.
  unfold nonempty. destruct s; simpl; split; intros H.
  - discriminate H.
  - now contradiction H.
  - discriminate.
  - reflexivity.
Qed.

Lemma keep_names_spec (n : string) (l : list (option string)) :
  n ∈ keep_names l <-> Some n ∈ l /\ n <> "".
Proof.
  unfold keep_names. rewrite !list_elem_of_In, in_flat_map. split.
  - intros [[s|] [Hin Hn]]; [|destruct Hn].
    destruct (nonempty s) eqn:Hs; [|destruct Hn].
    destruct Hn as [->|[]]. split; [exact Hin|]. now apply nonempty_iff.
  - intros [Hin Hne]. exists (Some n). split; [exact Hin|].
    apply nonempty_iff in Hne. rewrite Hne. now left.
Qed.

(** C7: when the Source A name or the Source B pretty name is a
    non-empty string, a display name is chosen; it is one of these
    non-empty strings, none of them is shorter, and when both are there
    with the same length it is the Source A name.  It is the name of the
    record the merge of the pair builds. *)
Theorem choose_name_shortest (pw ts : Substance.t) :
  let candidate n :=
    (Substance.name pw = Some n \/ Substance.pretty_name ts = Some n) /\ n <> "" in
  (exists m, candidate m) ->
  exists n,
    choose_name pw ts = Ok n
    /\ candidate n
    /\ (forall m, candidate m -> String.length n <= String.length m)
    /\ (forall a b,
          Substance.name pw = Some a -> Substance.pretty_name ts = Some b ->
          a <> "" -> b <> "" -> String.length a = String.length b -> n = a)
    /\ (forall c, merge_records pw ts = Ok (Some c) -> CanonicalSubstance.name c = n).
Proof.
  intros candidate [m0 Hm0].
  assert (Hlink : forall n, choose_name pw ts = Ok n ->
            forall c, merge_records pw ts = Ok (Some c) -> CanonicalSubstance.name c = n).
  { intros n Hn c Hc. apply merge_records_inv in Hc. destruct Hc as [Hc _]. congruence. }
  revert Hlink. subst candidate. unfold choose_name, keep_names. simpl in *.
  destruct (Substance.name pw) as [a|], (Substance.pretty_name ts) as [b|]; simpl.
  - destruct (nonempty a) eqn:Ha, (nonempty b) eqn:Hb; simpl.
    + apply nonempty_iff in Ha, Hb.
      destruct (String.length b <? String.length a)%nat eqn:Hlt; intros Hlink.
      * apply Nat.ltb_lt in Hlt. exists b. split; [reflexivity|]. split; [auto|].
        split; [|split; [|auto]].
        -- intros m [[[= <-]|[= <-]] _]; lia.
        -- intros a' b' [= <-] [= <-] _ _ Heq. lia.
      * apply Nat.ltb_ge in Hlt. exists a. split; [reflexivity|]. split; [auto|].
        split; [|split; [|auto]].
        -- intros m [[[= <-]|[= <-]] _]; lia.
        -- intros a' b' [= <-] [= <-] _ _ _. reflexivity.
    + apply nonempty_iff in Ha. intros Hlink. exists a. split; [reflexivity|].
      split; [auto|]. split; [|split; [|auto]].
      * intros m [[[= <-]|[= <-]] Hne]; [lia|]. apply nonempty_iff in Hne. congruence.
      * intros a' b' [= <-] [= <-] _ Hne. apply nonempty_iff in Hne. congruence.
    + apply nonempty_iff in Hb. intros Hlink. exists b. split; [reflexivity|].
      split; [auto|]. split; [|split; [|auto]].
      * intros m [[[= <-]|[= <-]] Hne]; [|lia]. apply nonempty_iff in Hne. congruence.
      * intros a' b' [= <-] [= <-] Hne. apply nonempty_iff in Hne. congruence.
    + exfalso. destruct Hm0 as [[[= <-]|[= <-]] Hne]; apply nonempty_iff in Hne; congruence.
  - destruct (nonempty a) eqn:Ha; simpl.
    + apply nonempty_iff in Ha. intros Hlink. exists a. split; [reflexivity|].
      split; [auto|]. split; [|split; [|auto]].
      * intros m [[[= <-]|[=]] _]. lia.
      * intros a' b' _ [=].
    + exfalso. destruct Hm0 as [[[= <-]|[=]] Hne]. apply nonempty_iff in Hne; congruence.
  - destruct (nonempty b) eqn:Hb; simpl.
    + apply nonempty_iff in Hb. intros Hlink. exists b. split; [reflexivity|].
      split; [auto|]. split; [|split; [|auto]].
      * intros m [[[=]|[= <-]] _]. lia.
      * intros a' b' [=].
    + exfalso. destruct Hm0 as [[[=]|[= <-]] Hne]. apply nonempty_iff in Hne; congruence.
  - exfalso. destruct Hm0 as [[[=]|[=]] _].
Qed.

(** ** The aliases *)

Lemma alias_sources_spec (n : string) (pw ts : Substance.t) :
  n ∈ alias_sources pw ts <-> n ∈ names_of_pair pw ts /\ n <> "".
Proof.
  unfold alias_sources, names_of_pair. rewrite keep_names_spec.
  assert (Hmap : forall l : list string, Some n ∈ map Some l <-> n ∈ l).
  { intros l. rewrite !list_elem_of_In, in_map_iff. split.
    - intros [x [[= ->] Hx]]. exact Hx.
    - intros Hx. eauto. }
  assert (Hopt : forall o : option string, n ∈ option_list o <-> o = Some n).
  { intros o. now rewrite list_elem_of_In, in_option_list. }
  rewrite !elem_of_app, !Hmap, !Hopt, !elem_of_cons, elem_of_nil.
  intuition congruence.
Qed.

Lemma merge_aliases_spec (pw ts : Substance.t) (name x : string) :
  x ∈ merge_aliases pw ts name <->
  (exists n, n ∈ names_of_pair pw ts /\ n <> "" /\ x = lower n) /\ x <> lower name.
Proof.
  unfold merge_aliases. rewrite elem_of_sorted, elem_of_elements.
  assert (Hset : x ∈ (list_to_set (map lower (alias_sources pw ts)) : gset string)
                 <-> exists n, n ∈ names_of_pair pw ts /\ n <> "" /\ x = lower n).
  { rewrite elem_of_list_to_set, list_elem_of_In, in_map_iff.
    setoid_rewrite <- list_elem_of_In. setoid_rewrite alias_sources_spec.
    split; intros (n & H); exists n; intuition congruence. }
  case_bool_decide as Hin.
  - rewrite elem_of_difference, elem_of_singleton, Hset. reflexivity.
  - rewrite Hset. split; [|tauto]. intros Hx. split; [exact Hx|].
    intros ->. apply Hin. apply Hset. exact Hx.
Qed.

Lemma merge_aliases_sorted (pw ts : Substance.t) (name : string) :
  StronglySorted str_lt (merge_aliases pw ts name).
Proof. unfold merge_aliases. apply sorted_strict, NoDup_elements. Qed.

(** C8, amended: the aliases of an appended record are strictly
    ascending (sorted, no repetition); a string is among them exactly when
    it is the lowercase of a non-empty name of the pair (Source A name,
    Source B pretty name, an alias of either source) and is not the
    lowercase of the chosen name.  So the lowercased chosen name is never
    an alias. *)
Theorem appended_aliases (pw ts : Substance.t) (c : CanonicalSubstance.t) :
  merge_records pw ts = Ok (Some c) ->
  StronglySorted str_lt (CanonicalSubstance.aliases c)
  /\ (forall x,
        x ∈ CanonicalSubstance.aliases c <->
        (exists n, n ∈ names_of_pair pw ts /\ n <> "" /\ x = lower n)
        /\ x <> lower (CanonicalSubstance.name c))
  /\ lower (CanonicalSubstance.name c) ∉ CanonicalSubstance.aliases c.
Proof.
  intros H. apply merge_records_inv in H. destruct H as (_ & Hal & _).
  rewrite Hal. split; [apply merge_aliases_sorted|].
  split; [intros x; apply merge_aliases_spec|].
  rewrite merge_aliases_spec. intros [_ Hne]. now apply Hne.
Qed.

(** ** The loop and its iterations *)

(** The loop appends, in order, what its iterations append. *)
Lemma merge_loop_iterations (names : list string) :
  forall (pw ts : list Substance.t) (substance_data : list CanonicalSubstance.t),
    merge_loop names pw ts substance_data
    = (fun its => substance_data ++ appended_records its)
        <$> merge_iterations names pw ts.
Proof.
  induction names as [|name names IH]; intros pw ts acc; simpl.
  - now rewrite app_nil_r.
  - unfold merge_body.
    destruct (find_and_consume pw name) as [[a pw_rest]|e]; simpl; [|reflexivity].
    destruct (find_and_consume ts name) as [[t ts_rest]|e]; simpl; [|reflexivity].
    destruct (merge_records a t) as [appended|e]; simpl; [|reflexivity].
    rewrite IH. destruct (merge_iterations names pw_rest ts_rest) as [its|e]; simpl;
      [|reflexivity].
    unfold appended_records. simpl. now rewrite app_assoc.
Qed.

Lemma reconcile_iterations (pw ts : list Substance.t) :
  reconcile pw ts
  = appended_records <$> merge_iterations (all_substance_names pw ts) pw ts.
Proof. unfold reconcile. now rewrite merge_loop_iterations. Qed.

(** Every name gets its iteration, in the order of the names. *)
Lemma merge_iterations_names (names : list string) :
  forall (pw ts : list Substance.t) (its : list iteration),
    merge_iterations names pw ts = Ok its -> map it_name its = names.
Proof.
  induction names as [|name names IH]; intros pw ts its; simpl.
  - now intros [= <-].
  - destruct (find_and_consume pw name) as [[a pw_rest]|e]; simpl; [|discriminate].
    destruct (find_and_consume ts name) as [[t ts_rest]|e]; simpl; [|discriminate].
    destruct (merge_records a t) as [appended|e]; simpl; [|discriminate].
    destruct (merge_iterations names pw_rest ts_rest) as [later|e] eqn:Hlater; simpl;
      [|discriminate].
    intros [= <-]. simpl. f_equal. now apply (IH pw_rest ts_rest).
Qed.

(** ** The order of the output *)

(** C10: the names the loop iterates over are strictly ascending, so
    without repetition; they are the lowercased primary names of the
    records of both lists (a record with no [name] key counts with the
    empty name, as [s.get("name", "")] has it), so that names that differ
    only in case are one name.  The output is what the iterations append,
    one iteration per name in that order, whatever the order of the two
    lists. *)
Theorem output_in_sorted_name_order (pw ts : list Substance.t) :
  let names := all_substance_names pw ts in
  StronglySorted str_lt names
  /\ NoDup names
  /\ (forall n, n ∈ names <->
        exists s, s ∈ pw ++ ts /\ n = lower (default "" (Substance.name s)))
  /\ reconcile pw ts = appended_records <$> merge_iterations names pw ts
  /\ (forall its, merge_iterations names pw ts = Ok its -> map it_name its = names)
  /\ (forall pw' ts', pw' ≡ₚ pw -> ts' ≡ₚ ts -> all_substance_names pw' ts' = names).
Proof.
  intros names.
  assert (Hsorted : StronglySorted str_lt names).
  { apply sorted_strict, NoDup_elements. }
  assert (Hmem : forall pw ts n, n ∈ all_substance_names pw ts <->
            exists s, s ∈ pw ++ ts /\ n = lower (default "" (Substance.name s))).
  { clear. intros pw ts n. unfold all_substance_names.
    rewrite elem_of_sorted, elem_of_elements, elem_of_list_to_set, <- map_app.
    rewrite list_elem_of_In, in_map_iff. setoid_rewrite list_elem_of_In.
    split; intros (s & H1 & H2); exists s; auto. }
  split; [exact Hsorted|]. split; [now apply StronglySorted_str_lt_NoDup|].
  split; [apply Hmem|]. split; [apply reconcile_iterations|].
  split; [apply merge_iterations_names|].
  intros pw' ts' Hpw Hts.
  apply (StronglySorted_unique_strong str_lt).
  - intros a b Ha Hb Hab Hba. exfalso.
    apply str_lt_le_ne in Hab, Hba. destruct Hab as [Hab Hne], Hba as [Hba _].
    apply Hne. exact (anti_symm String.le a b Hab Hba).
  - apply sorted_strict, NoDup_elements.
  - exact Hsorted.
  - apply NoDup_Permutation.
    + apply StronglySorted_str_lt_NoDup, sorted_strict, NoDup_elements.
    + now apply StronglySorted_str_lt_NoDup.
    + intros n. subst names. rewrite !Hmem. setoid_rewrite elem_of_app.
      setoid_rewrite Hpw. setoid_rewrite Hts. reflexivity.
Qed.

(** ** Names of the output *)

Lemma keep_names_app (l1 l2 : list (option string)) :
  keep_names (l1 ++ l2) = keep_names l1 ++ keep_names l2.
Proof. unfold keep_names. apply flat_map_app. Qed.

Lemma min_by_len_elem (names : list string) (n : string) :
  min_by_len names = Ok n -> n ∈ names.
Proof.
  destruct names as [|first rest]; simpl; [discriminate|]. intros [= <-].
  assert (H : forall best, fold_left
            (fun best m => if (String.length m <? String.length best)%nat
                           then m else best) rest best ∈ best :: rest).
  { induction rest as [|m rest IH]; intros best; simpl.
    - left.
    - destruct (String.length m <? String.length best)%nat.
      + right. apply IH.
      + specialize (IH best). apply elem_of_cons in IH. destruct IH as [->|IH].
        * left.
        * right. now right. }
  apply H.
Qed.

(** A find-and-consume takes at most the record it returns out of the
    list, and the empty record has no name. *)
Lemma find_and_consume_perm (data : list Substance.t) (name : string)
    (s : Substance.t) (rest : list Substance.t) (field : Substance.t -> option string) :
  field Substance.empty = None ->
  find_and_consume data name = Ok (s, rest) ->
  keep_names (map field data) ≡ₚ keep_names [field s] ++ keep_names (map field rest).
Proof.
  intros Hempty Hfc.
  destruct (find_and_consume_cases data name)
    as [(s' & before & after & -> & _ & _ & _ & Hfc')|[_ Hfc']];
    rewrite Hfc' in Hfc; injection Hfc as <- <-.
  - rewrite !map_app. simpl map. rewrite !keep_names_app.
    change (field s' :: map field after) with ([field s'] ++ map field after).
    rewrite keep_names_app. rewrite !app_assoc. apply Permutation_app_tail.
    apply Permutation_app_comm.
  - rewrite Hempty. reflexivity.
Qed.

Lemma submseteq_pick {A} (x : A) (l l' k : list A) :
  x ∈ l -> l' ⊆+ k -> x :: l' ⊆+ l ++ k.
Proof.
  intros Hx Hsub. apply elem_of_Permutation in Hx. destruct Hx as [l'' Hl].
  rewrite Hl. simpl. apply submseteq_skip. now apply submseteq_inserts_l.
Qed.

Lemma submseteq_NoDup_l {A} (l k : list A) : l ⊆+ k -> NoDup k -> NoDup l.
Proof.
  intros Hsub Hnd. apply submseteq_Permutation in Hsub. destruct Hsub as [k' Hk].
  rewrite Hk in Hnd. now apply NoDup_app in Hnd.
Qed.

(** Each name of the output uses up one candidate of the records its
    iteration consumed. *)
Lemma appended_names_submseteq (names : list string) :
  forall (pw ts : list Substance.t) (its : list iteration),
    merge_iterations names pw ts = Ok its ->
    map CanonicalSubstance.name (appended_records its) ⊆+ display_candidates pw ts.
Proof.
  induction names as [|name names IH]; intros pw ts its; simpl.
  - intros [= <-]. apply submseteq_nil_l.
  - destruct (find_and_consume pw name) as [[a pw_rest]|e] eqn:Ha; simpl; [|discriminate].
    destruct (find_and_consume ts name) as [[t ts_rest]|e] eqn:Ht; simpl; [|discriminate].
    destruct (merge_records a t) as [appended|e] eqn:Hm; simpl; [|discriminate].
    destruct (merge_iterations names pw_rest ts_rest) as [later|e] eqn:Hlater; simpl;
      [|discriminate].
    intros [= <-]. specialize (IH _ _ _ Hlater).
    unfold display_candidates in *.
    rewrite (find_and_consume_perm pw name a pw_rest Substance.name eq_refl Ha).
    rewrite (find_and_consume_perm ts name t ts_rest Substance.pretty_name eq_refl Ht).
    unfold appended_records in *. simpl.
    set (later_names := map CanonicalSubstance.name
                          (flat_map (fun it => option_list (it_appended it)) later)) in *.
    set (ca := keep_names (map Substance.name pw_rest)) in *.
    set (cb := keep_names (map Substance.pretty_name ts_rest)) in *.
    assert (Hrest : later_names
                    ⊆+ (keep_names [Substance.name a] ++ ca)
                       ++ keep_names [Substance.pretty_name t] ++ cb).
    { etrans; [exact IH|]. apply submseteq_app.
      - apply submseteq_inserts_l. reflexivity.
      - apply submseteq_inserts_l. reflexivity. }
    destruct appended as [c|]; cbn [option_list app map it_appended].
    + fold later_names.
      apply merge_records_inv in Hm. destruct Hm as (Hname & _).
      apply min_by_len_elem in Hname.
      change [Substance.name a; Substance.pretty_name t]
        with ([Substance.name a] ++ [Substance.pretty_name t]) in Hname.
      rewrite keep_names_app in Hname.
      assert (Hperm : (keep_names [Substance.name a] ++ ca)
                      ++ keep_names [Substance.pretty_name t] ++ cb
                      ≡ₚ (keep_names [Substance.name a]
                          ++ keep_names [Substance.pretty_name t]) ++ (ca ++ cb)).
      { rewrite <- !app_assoc. apply Permutation_app_head.
        rewrite !app_assoc. apply Permutation_app_tail. apply Permutation_app_comm. }
      rewrite Hperm. apply submseteq_pick; [exact Hname|exact IH].
    + exact Hrest.
Qed.

Lemma find_and_consume_outcome (data : list Substance.t) (name : string)
    (s : Substance.t) (rest : list Substance.t) :
  find_and_consume data name = Ok (s, rest) ->
  (Substance.truthy s = true /\ data ≡ₚ s :: rest)
  \/ (s = Substance.empty /\ rest = data).
Proof.
  intros Hfc.
  destruct (find_and_consume_cases data name)
    as [(s' & before & after & -> & _ & Hs & _ & Hfc')|[_ Hfc']];
    rewrite Hfc' in Hfc; injection Hfc as <- <-.
  - left. split; [now apply (match_truthy name)|].
    symmetry. apply Permutation_middle.
  - now right.
Qed.

Lemma consumed_submseteq (names : list string) :
  forall (pw ts : list Substance.t) (its : list iteration),
    merge_iterations names pw ts = Ok its ->
    List.filter Substance.truthy (map it_pw its) ⊆+ pw
    /\ List.filter Substance.truthy (map it_ts its) ⊆+ ts.
Proof.
  induction names as [|name names IH]; intros pw ts its; simpl.
  - intros [= <-]. split; apply submseteq_nil_l.
  - destruct (find_and_consume pw name) as [[a pw_rest]|e] eqn:Ha; simpl; [|discriminate].
    destruct (find_and_consume ts name) as [[t ts_rest]|e] eqn:Ht; simpl; [|discriminate].
    destruct (merge_records a t) as [appended|e]; simpl; [|discriminate].
    destruct (merge_iterations names pw_rest ts_rest) as [later|e] eqn:Hlater; simpl;
      [|discriminate].
    intros [= <-]. destruct (IH _ _ _ Hlater) as [IHa IHt]. simpl.
    split.
    + destruct (find_and_consume_outcome _ _ _ _ Ha) as [[Htr Hperm]|[-> ->]].
      * rewrite Htr, Hperm. now apply submseteq_skip.
      * exact IHa.
    + destruct (find_and_consume_outcome _ _ _ _ Ht) as [[Htr Hperm]|[-> ->]].
      * rewrite Htr, Hperm. now apply submseteq_skip.
      * exact IHt.
Qed.

(** Every iteration of a run is the merge of the pair it found. *)
Lemma iterations_merge_records (names : list string) :
  forall (pw ts : list Substance.t) (its : list iteration),
    merge_iterations names pw ts = Ok its ->
    Forall (fun it => merge_records (it_pw it) (it_ts it) = Ok (it_appended it)) its.
Proof.
  induction names as [|name names IH]; intros pw ts its; simpl.
  - intros [= <-]. constructor.
  - destruct (find_and_consume pw name) as [[a pw_rest]|e]; simpl; [|discriminate].
    destruct (find_and_consume ts name) as [[t ts_rest]|e]; simpl; [|discriminate].
    destruct (merge_records a t) as [appended|e] eqn:Hm; simpl; [|discriminate].
    destruct (merge_iterations names pw_rest ts_rest) as [later|e] eqn:Hlater; simpl;
      [|discriminate].
    intros [= <-]. constructor; [exact Hm|]. exact (IH _ _ _ Hlater).
Qed.

(** The name of an appended record is carried by the pair it is made
    of. *)
Lemma appended_name_carried (it : iteration) (r : CanonicalSubstance.t) :
  merge_records (it_pw it) (it_ts it) = Ok (it_appended it) ->
  it_appended it = Some r ->
  carried_by it (CanonicalSubstance.name r).
Proof.
  intros Hm Hr. rewrite Hr in Hm. apply merge_records_inv in Hm.
  destruct Hm as (Hname & _). unfold choose_name in Hname.
  apply min_by_len_elem, keep_names_spec in Hname. destruct Hname as [Hin Hne].
  split; [exact Hne|]. rewrite !elem_of_cons, elem_of_nil in Hin.
  intuition congruence.
Qed.

(** C1, amended: two records appended at distinct iteration names have
    different names unless the name is carried, as the non-empty Source A
    name or Source B pretty name, both by the pair merged at the one
    iteration and by the pair merged at the other.  The name of an
    appended record is always carried by its own pair; the pairs of
    different iterations are made of different source records (each record
    of either list is consumed at most once); so the names of the output
    use each display-name candidate of the input at most once, and are
    pairwise distinct when no candidate occurs twice. *)
Theorem output_names_distinct (pw ts : list Substance.t) (its : list iteration) :
  merge_iterations (all_substance_names pw ts) pw ts = Ok its ->
  reconcile pw ts = Ok (appended_records its)
  /\ (forall it1 it2 r1 r2,
        it1 ∈ its -> it2 ∈ its -> it_name it1 <> it_name it2 ->
        it_appended it1 = Some r1 -> it_appended it2 = Some r2 ->
        ~ (carried_by it1 (CanonicalSubstance.name r1)
           /\ carried_by it2 (CanonicalSubstance.name r1)) ->
        CanonicalSubstance.name r1 <> CanonicalSubstance.name r2)
  /\ (forall it r,
        it ∈ its -> it_appended it = Some r ->
        carried_by it (CanonicalSubstance.name r))
  /\ List.filter Substance.truthy (map it_pw its) ⊆+ pw
  /\ List.filter Substance.truthy (map it_ts its) ⊆+ ts
  /\ map CanonicalSubstance.name (appended_records its) ⊆+ display_candidates pw ts
  /\ (NoDup (display_candidates pw ts) ->
      NoDup (map CanonicalSubstance.name (appended_records its))).
Proof.
  intros Hits.
  pose proof (iterations_merge_records _ _ _ _ Hits) as Hall.
  rewrite Forall_forall in Hall.
  assert (Hcarried : forall it r,
             it ∈ its -> it_appended it = Some r ->
             carried_by it (CanonicalSubstance.name r)).
  { intros it r Hin Hr. exact (appended_name_carried it r (Hall it Hin) Hr). }
  pose proof (appended_names_submseteq _ _ _ _ Hits) as Hsub.
  destruct (consumed_submseteq _ _ _ _ Hits) as [Hpw Hts].
  split; [rewrite reconcile_iterations, Hits; reflexivity|].
  split.
  - intros it1 it2 r1 r2 Hin1 Hin2 _ Hr1 Hr2 Hnone Heq. apply Hnone.
    split; [now apply Hcarried|]. rewrite Heq. now apply Hcarried.
  - split; [exact Hcarried|]. split; [exact Hpw|]. split; [exact Hts|].
    split; [exact Hsub|]. intros Hnd. exact (submseteq_NoDup_l _ _ Hsub Hnd).
Qed.

(** ** What the merge of a pair writes *)

Lemma with_combos_same (s : Substance.t) : with_combos s (Substance.combos s) = s.
Proof. now destruct s. Qed.

Lemma with_combos_eq (s : Substance.t) (entries : option (dict (dict json))) :
  Substance.combos s = entries -> s = with_combos s entries.
Proof. intros <-. symmetry. apply with_combos_same. Qed.

Lemma transform_combos_ok (entries : dict (dict json)) :
  forall interactions entries',
    transform_combos entries = (Ok interactions, entries') ->
    entries' = named_combos entries.
Proof.
  induction entries as [|[key combo_data] rest IH];
    cbn [transform_combos named_combos map]; intros interactions entries'.
  - now intros [= <- <-].
  - unfold name_combo. destruct (bool_decide (key ∈ ts_combo_ignore)); cbv iota.
    + destruct (transform_combos rest) as [r rest'] eqn:Hrest. cbv iota.
      intros [= -> <-]. f_equal. now apply (IH interactions).
    + destruct (dict_get key ts_combo_transformations) as [display|]; [|discriminate].
      destruct (transform_combos rest) as [[r|e] rest'] eqn:Hrest;
        cbv [fmap result_fmap]; [|discriminate].
      intros [= <- <-]. f_equal. now apply (IH r).
Qed.

Lemma merge_interactions_store (σ : merge_pair) :
  pw_substance (snd (merge_interactions σ)) = pw_substance σ
  /\ (exists entries,
        ts_substance (snd (merge_interactions σ)) = with_combos (ts_substance σ) entries)
  /\ (forall interactions,
        fst (merge_interactions σ) = Ok interactions ->
        ts_substance (snd (merge_interactions σ))
        = with_combos (ts_substance σ) (named_combos <$> Substance.combos (ts_substance σ))).
Proof.
  unfold merge_interactions. unfold_M.
  destruct (Substance.combos (ts_substance σ)) as [[|entry more]|] eqn:Hc;
    cbn [fst snd].
  1,3: split; [reflexivity|]; split;
    [eexists; apply with_combos_eq; exact Hc
    |intros _ _; apply with_combos_eq; exact Hc].
  destruct (transform_combos (entry :: more)) as [[r|e] entries'] eqn:Ht;
    cbn [fst snd pw_substance ts_substance].
  - split; [reflexivity|]. split; [eauto|]. intros _ _.
    now rewrite (transform_combos_ok _ _ _ Ht).
  - split; [reflexivity|]. split; [eauto|]. intros interactions [=].
Qed.

(** C2, amended: the merge of a pair never writes the Source A record
    and writes nothing of the Source B record but its [combos]: a merge
    that raises on the url or the name has written nothing, and a merge
    that returns leaves in [combos] the combo dicts with the display name
    stored under [name] for every key that is not ignored. *)
Theorem merge_fields_frame (σ : merge_pair) :
  let r := fst (merge_fields σ) in
  let σ' := snd (merge_fields σ) in
  pw_substance σ' = pw_substance σ
  /\ (exists entries, ts_substance σ' = with_combos (ts_substance σ) entries)
  /\ (forall appended, r = Ok appended ->
        ts_substance σ'
        = with_combos (ts_substance σ)
            (named_combos <$> Substance.combos (ts_substance σ)))
  /\ (forall e, (merge_url (pw_substance σ) (ts_substance σ) = Raise e
                 \/ choose_name (pw_substance σ) (ts_substance σ) = Raise e) ->
        σ' = σ).
Proof.
  intros r σ'. subst r σ'.
  destruct (merge_fields σ) as [r σ'] eqn:Hmf. cbn [fst snd].
  apply merge_fields_inv in Hmf. cbv zeta in Hmf.
  destruct (merge_interactions_store σ) as (Hpw & Hts & Hnamed).
  destruct Hmf as [(e & -> & -> & _)|(u & n & Hu & Hn & -> & Hi)].
  - split; [reflexivity|]. split.
    { eexists. symmetry. apply with_combos_same. }
    split; [intros appended [=]|]. reflexivity.
  - split; [exact Hpw|]. split; [exact Hts|]. split.
    + intros appended ->. destruct (fst (merge_interactions σ)) as [i|e] eqn:Hfst.
      * now apply (Hnamed i).
      * discriminate Hi.
    + intros e [He|He]; congruence.
Qed.

(** ** Where the policies stop short *)

(** C1 as stated fails: the Source B record of "amfetamine sulfate" has
    the pretty name "Speed"; the iteration "amfetamine sulfate" merges it
    with the Source A record of that name and chooses the shorter "Speed";
    the iteration "speed" then finds the Source A record "Speed".  Two
    records named "Speed" are appended. *)
Lemma same_name_twice : ~ names_differ_across_iterations speed_a speed_b.
Proof.
  intros H. unfold names_differ_across_iterations in H.
  destruct (merge_iterations (all_substance_names speed_a speed_b) speed_a speed_b)
    as [its|e] eqn:E; vm_compute in E; [|discriminate E].
  injection E as <-. specialize (H _ eq_refl).
  refine (H _ _ _ _ (list_elem_of_here _ _)
            (list_elem_of_further _ _ _ (list_elem_of_here _ _)) _ eq_refl eq_refl eq_refl).
  discriminate.
Qed.

(** C2 as stated fails: merging the LSD pair stores "MDMA" under [name]
    in the combo dict of the Source B record. *)
Lemma merge_writes_combos :
  ~ merge_leaves_records {| pw_substance := lsd_a; ts_substance := lsd_b |}.
Proof. unfold merge_leaves_records. vm_compute. discriminate. Qed.

(** C8 as stated fails: the empty alias of the Source A record is not
    among the aliases of the merged record, and it is in the union. *)
Lemma blank_alias_dropped : ~ aliases_are_union blank_alias_a Substance.empty.
Proof.
  intros H. unfold aliases_are_union in H.
  destruct (merge_records blank_alias_a Substance.empty) as [[c|]|e] eqn:E;
    vm_compute in E; try discriminate E.
  injection E as <-. specialize (H _ eq_refl). vm_compute in H. discriminate H.
Qed.

(** C3: a Source B record that has no pretty name and no Source A
    partner leaves [min] with no name to choose from, and a combo key that
    the display-name table does not have is looked up all the same: the
    merge raises, and with it the whole reconciliation. *)
Theorem missing_fields_raise :
  fst (merge_fields {| pw_substance := Substance.empty; ts_substance := no_pretty_b |})
    = Raise (ValueError "min() arg is an empty sequence")
  /\ reconcile [] [no_pretty_b] = Raise (ValueError "min() arg is an empty sequence")
  /\ fst (merge_fields {| pw_substance := lsd_a; ts_substance := odd_combo_b |})
     = Raise (KeyError "lithium")
  /\ reconcile [lsd_a] [odd_combo_b] = Raise (KeyError "lithium").
Proof. repeat split; vm_compute; reflexivity. Qed.

(** ** The retry helper *)

(** The helper never calls more than three times, whatever the call
    does. *)
Lemma try_three_times_at_most_three {W A} (func : W -> result A * W) (w : W) :
  count_calls (snd (try_three_times func w)) <= 3.
Proof.
  unfold try_three_times. generalize 3 as remaining. intros remaining. revert w.
  induction remaining as [|k IH]; intros w; simpl; [lia|].
  destruct (func w) as [[a|e] w']; simpl; [lia|].
  specialize (IH w'). destruct (try_attempts func k w') as [[r w''] log]. simpl in *. lia.
Qed.

(** C4: when the point query raises at every call, the helper calls it
    three times, prints the exception and sleeps one second after each
    failure, and returns [None]; the call site then takes [len(None)],
    which raises, and the handler of the page loop exits with status 1:
    the run is aborted, the substance is not skipped. *)
Theorem failed_query_exits {W : Type} (query : W -> result (list api_substance) * W)
    (w : W) (url name : string) (common_names : list string) :
  (forall w', exists e, fst (query w') = Raise e) ->
  exists e1 e2 e3 w' log,
    log = [Called; Printed e1; Slept 1;
           Called; Printed e2; Slept 1;
           Called; Printed e3; Slept 1]
    /\ try_three_times query w = (None, w', log)
    /\ query_body url name common_names None
       = Raise (TypeError "object of type 'NoneType' has no len()")
    /\ query_call_site query url name common_names w = (Exited 1, w', log).
Proof.
  intros Hfail. unfold query_call_site, try_three_times. simpl.
  destruct (Hfail w) as [e1 H1]. destruct (query w) as [r1 w1]. simpl in H1. subst r1.
  destruct (Hfail w1) as [e2 H2]. destruct (query w1) as [r2 w2]. simpl in H2. subst r2.
  destruct (Hfail w2) as [e3 H3]. destruct (query w2) as [r3 w3]. simpl in H3. subst r3.
  exists e1, e2, e3, w3. eexists. repeat split.
Qed.

(** ** The scan of the bioavailability text *)

Lemma span_length (p : ascii -> bool) (s : list ascii) :
  length (fst (span p s)) + length (snd (span p s)) = length s.
Proof.
  induction s as [|c s IH]; simpl; [reflexivity|].
  destruct (p c); simpl; [|reflexivity].
  destruct (span p s) as [run tail]. simpl in *. lia.
Qed.

Lemma give_back_length (seps suffix : list ascii) :
  give_back seps = Some suffix -> length suffix <= length seps.
Proof.
  revert suffix. induction seps as [|c seps IH]; intros suffix; simpl; [discriminate|].
  destruct (give_back seps) as [inner|].
  - intros [= <-]. specialize (IH inner eq_refl). lia.
  - destruct (is_value_char c); [|discriminate]. intros [= <-]. simpl. lia.
Qed.

(** A match consumes at least one character. *)
Lemma match_at_shorter (s route value rest : list ascii) :
  match_at s = Some (route, value, rest) -> length rest < length s.
Proof.
  unfold match_at.
  pose proof (span_length is_route_char s) as H1.
  destruct (span is_route_char s) as [[|r1 route'] after_route]; [discriminate|].
  pose proof (span_length is_sep_char after_route) as H2.
  destruct (span is_sep_char after_route) as [[|sep1 seps] after_seps]; [discriminate|].
  pose proof (span_length is_value_char after_seps) as H3.
  destruct (span is_value_char after_seps) as [[|v value'] rest'].
  - destruct (give_back seps) as [suffix|] eqn:Hg; [|discriminate].
    apply give_back_length in Hg.
    pose proof (span_length is_value_char (suffix ++ after_seps)) as H4.
    destruct (span is_value_char (suffix ++ after_seps)) as [value'' rest''].
    intros [= <- <- <-]. simpl in *. rewrite length_app in H4. lia.
  - intros [= <- <- <-]. simpl in *. lia.
Qed.

(** The scan is done when the text is used up: more steps than the text
    has characters change nothing. *)
Lemma findall_from_steps (n : nat) :
  forall (m : nat) (s : list ascii),
    length s <= n -> length s <= m -> findall_from n s = findall_from m s.
Proof.
  induction n as [|n IH]; intros m s Hn Hm.
  - destruct s; [|simpl in Hn; lia]. now destruct m.
  - destruct m as [|m].
    + destruct s; [reflexivity|simpl in Hm; lia].
    + destruct s as [|c tail]; [reflexivity|].
      cbn [findall_from]. simpl in Hn, Hm.
      destruct (match_at (c :: tail)) as [[[route value] rest]|] eqn:Hmatch.
      * apply match_at_shorter in Hmatch. simpl in Hmatch.
        f_equal. apply IH; lia.
      * apply IH; lia.
Qed.

(** ** Fields that degrade *)

(** A missing or blank free-text property gives [None]. *)
Lemma text_property_missing (ts_properties : dict string) (key : string) :
  dict_get key ts_properties = None -> text_property ts_properties key = None.
Proof. unfold text_property. now intros ->. Qed.

(** A missing alias list counts as the empty list. *)
Lemma names_of_pair_no_aliases (pw ts : Substance.t) :
  Substance.aliases pw = None -> Substance.aliases ts = None ->
  names_of_pair pw ts
  = option_list (Substance.name pw) ++ option_list (Substance.pretty_name ts).
Proof. unfold names_of_pair. intros -> ->. simpl. now rewrite !app_nil_r. Qed.

(** ** The theorems at sample records *)

Lemma consume_once_witness :
  "mdma" <> "molly"
  /\ substance_name_match "mdma" mdma_a = true
  /\ substance_name_match "molly" mdma_a = true
  /\ count_occ substance_eq_dec [lsd_a; mdma_a] mdma_a = 1
  /\ exists r1 L1 r2 L2,
       find_and_consume [lsd_a; mdma_a] "mdma" = Ok (r1, L1)
       /\ find_and_consume L1 "molly" = Ok (r2, L2)
       /\ (r1 = mdma_a -> mdma_a ∉ L1)
       /\ ~ (r1 = mdma_a /\ r2 = mdma_a).
Proof.
  assert (H1 : "mdma" <> "molly") by discriminate.
  assert (H2 : substance_name_match "mdma" mdma_a = true) by reflexivity.
  assert (H3 : substance_name_match "molly" mdma_a = true) by reflexivity.
  assert (H4 : count_occ substance_eq_dec [lsd_a; mdma_a] mdma_a = 1)
    by (vm_compute; reflexivity).
  repeat (split; [assumption|]).
  exact (consume_once [lsd_a; mdma_a] mdma_a "mdma" "molly" H1 H2 H3 H4).
Defined.

Lemma appended_roas_witness :
  merge_body [lsd_a] [lsd_b] "lsd" = Ok ([], [], lsd_merged)
  /\ CanonicalSubstance.roas <$> lsd_merged = Some [oral].
Proof.
  assert (H : merge_body [lsd_a] [lsd_b] "lsd" = Ok ([], [], lsd_merged))
    by (vm_compute; reflexivity).
  split; [exact H|].
  destruct (appended_roas [lsd_a] [lsd_b] "lsd" [] [] lsd_merged H) as [_ Hc].
  destruct lsd_merged as [c|] eqn:E; [|vm_compute in E; discriminate E].
  destruct (Hc c eq_refl) as [Hr _]. simpl. rewrite Hr. vm_compute. reflexivity.
Defined.

Lemma choose_name_shortest_witness :
  (exists m, (Substance.name lsd_a = Some m \/ Substance.pretty_name lsd_b = Some m)
             /\ m <> "")
  /\ choose_name lsd_a lsd_b = Ok "LSD".
Proof.
  assert (H : exists m, (Substance.name lsd_a = Some m
                         \/ Substance.pretty_name lsd_b = Some m) /\ m <> "").
  { exists "Acid". split; [right; reflexivity|discriminate]. }
  split; [exact H|].
  destruct (choose_name_shortest lsd_a lsd_b H) as (n & Hn & _ & Hmin & _).
  rewrite Hn. f_equal.
  assert (Hshort : String.length n <= 3).
  { apply (Hmin "LSD"). split; [left; reflexivity|discriminate]. }
  vm_compute in Hn. injection Hn as <-. reflexivity.
Defined.

Lemma appended_aliases_witness :
  merge_records lsd_a lsd_b = Ok lsd_merged
  /\ match lsd_merged with
     | Some c => lower (CanonicalSubstance.name c) ∉ CanonicalSubstance.aliases c
     | None => False
     end.
Proof.
  assert (H : merge_records lsd_a lsd_b = Ok lsd_merged) by (vm_compute; reflexivity).
  split; [exact H|].
  destruct lsd_merged as [c|] eqn:E; [|vm_compute in E; discriminate E].
  exact (proj2 (proj2 (appended_aliases lsd_a lsd_b c H))).
Defined.

Lemma output_names_distinct_witness :
  merge_iterations (all_substance_names same_a same_b) same_a same_b = Ok same_iterations
  /\ match same_iterations with
     | [it1; it2] =>
         match it_appended it1, it_appended it2 with
         | Some r1, Some r2 => CanonicalSubstance.name r1 <> CanonicalSubstance.name r2
         | _, _ => False
         end
     | _ => False
     end.
Proof.
  assert (H : merge_iterations (all_substance_names same_a same_b) same_a same_b
              = Ok same_iterations) by (vm_compute; reflexivity).
  split; [exact H|].
  pose proof (proj1 (proj2 (output_names_distinct same_a same_b same_iterations H)))
    as Hdistinct.
  unfold same_iterations in *. cbn [it_appended].
  eapply Hdistinct.
  - apply list_elem_of_here.
  - apply list_elem_of_further, list_elem_of_here.
  - discriminate.
  - reflexivity.
  - reflexivity.
  - intros [_ [_ [H2|H2]]]; cbn in H2; congruence.
Defined.

Lemma failed_query_exits_witness :
  (forall w', exists e, fst (always_fails w') = Raise e)
  /\ fst (fst (query_call_site always_fails "https://psychonautwiki.org/wiki/LSD"
                 "LSD" ["Acid"] tt)) = Exited 1.
Proof.
  assert (H : forall w', exists e, fst (always_fails w') = Raise e).
  { intros w'. eexists. reflexivity. }
  split; [exact H|].
  destruct (failed_query_exits always_fails tt "https://psychonautwiki.org/wiki/LSD"
              "LSD" ["Acid"] H) as (e1 & e2 & e3 & w' & log & _ & _ & _ & Hsite).
  now rewrite Hsite.
Defined.

Lemma merge_fields_frame_witness :
  pw_substance (snd (merge_fields {| pw_substance := lsd_a; ts_substance := lsd_b |}))
  = lsd_a
  /\ Substance.combos
       (ts_substance (snd (merge_fields {| pw_substance := lsd_a; ts_substance := lsd_b |})))
     = Some [("mdma", [("status", JStr "Low Risk & Synergy"); ("name", JStr "MDMA")]);
             ("benzos", [("status", JStr "Low Risk & Decrease")])].
Proof.
  destruct (merge_fields_frame {| pw_substance := lsd_a; ts_substance := lsd_b |})
    as (Hpw & _ & Hts & _).
  split; [exact Hpw|].
  destruct (fst (merge_fields {| pw_substance := lsd_a; ts_substance := lsd_b |}))
    as [appended|e] eqn:E; [|vm_compute in E; discriminate E].
  rewrite (Hts appended eq_refl). vm_compute. reflexivity.
Defined.

Lemma output_in_sorted_name_order_witness :
  all_substance_names [mdma_a; lsd_a] [lsd_b] = ["lsd"; "mdma"]
  /\ StronglySorted str_lt (all_substance_names [mdma_a; lsd_a] [lsd_b])
  /\ reconcile [mdma_a; lsd_a] [lsd_b]
     = appended_records
         <$> merge_iterations (all_substance_names [mdma_a; lsd_a] [lsd_b])
               [mdma_a; lsd_a] [lsd_b].
Proof.
  split; [vm_compute; reflexivity|].
  destruct (output_in_sorted_name_order [mdma_a; lsd_a] [lsd_b])
    as (Hsorted & _ & _ & Hout & _).
  split; [exact Hsorted|exact Hout].
Defined.

(** * Further properties *)

(** ** Route synonyms *)

Ltac case_key k :=
  repeat match goal with
         | |- context [String.eqb k ?lit] =>
             destruct (String.eqb_spec k lit) as [->|?]
         end.

(** The synonym table goes both ways. *)
Lemma roa_name_aliases_sym (a b : string) :
  a ∈ default [] (dict_get b roa_name_aliases) ->
  b ∈ default [] (dict_get a roa_name_aliases).
Proof.
  unfold roa_name_aliases. cbn [dict_get]. case_key b; cbn [default];
    intros H; try (apply elem_of_nil in H; destruct H);
    apply list_elem_of_singleton in H; subst a; vm_compute;
    apply list_elem_of_here.
Qed.

(** No name has a synonym that has another synonym. *)
Lemma roa_name_aliases_pairs (a b c : string) :
  a ∈ default [] (dict_get b roa_name_aliases) ->
  b ∈ default [] (dict_get c roa_name_aliases) ->
  a = c.
Proof.
  intros Hab. unfold roa_name_aliases at 1. cbn [dict_get].
  case_key c; cbn [default];
    intros Hbc; try (apply elem_of_nil in Hbc; destruct Hbc);
    apply list_elem_of_singleton in Hbc; subst b; vm_compute in Hab;
    apply list_elem_of_singleton in Hab; exact Hab.
Qed.

Lemma roa_matches_name_iff (roa : RouteRecord) (name : string) :
  roa_matches_name roa name = true <->
  lower (roa_name roa) = lower name
  \/ lower (roa_name roa) ∈ default [] (dict_get (lower name) roa_name_aliases).
Proof.
  unfold roa_matches_name.
  rewrite orb_true_iff, String.eqb_eq, bool_decide_eq_true. reflexivity.
Qed.

(** Matching a route against a name is an equivalence on route labels:
    every route matches its own label, whatever the case; if the route
    labelled [a] matches the name [b], the route labelled [b] matches the
    name [a]; and matches chain. *)
Theorem roa_matches_name_equivalence (r1 r2 r3 : RouteRecord) :
  roa_matches_name r1 (roa_name r1) = true
  /\ roa_matches_name r1 (roa_name r2) = roa_matches_name r2 (roa_name r1)
  /\ (roa_matches_name r1 (roa_name r2) = true ->
      roa_matches_name r2 (roa_name r3) = true ->
      roa_matches_name r1 (roa_name r3) = true).
Proof.
  assert (Hsym : forall x y : RouteRecord,
             roa_matches_name x (roa_name y) = true ->
             roa_matches_name y (roa_name x) = true).
  { intros x y. rewrite !roa_matches_name_iff. intros [H|H].
    - left. congruence.
    - right. now apply roa_name_aliases_sym. }
  split; [apply roa_matches_name_iff; now left|]. split.
  - destruct (roa_matches_name r1 (roa_name r2)) eqn:H12.
    + symmetry. now apply Hsym.
    + destruct (roa_matches_name r2 (roa_name r1)) eqn:H21; [|reflexivity].
      apply Hsym in H21. congruence.
  - rewrite !roa_matches_name_iff. intros [H12|H12] [H23|H23].
    + left. congruence.
    + right. now rewrite H12.
    + right. now rewrite <- H23.
    + left. exact (roa_name_aliases_pairs _ _ _ H12 H23).
Qed.

(** ** Look-ups *)

Lemma ascii_lower_idem (c : ascii) : ascii_lower (ascii_lower c) = ascii_lower c.
Proof. destruct c as [[] [] [] [] [] [] [] []]; reflexivity. Qed.

Lemma lower_idem (s : string) : lower (lower s) = lower s.
Proof.
  induction s as [|c s IH]; simpl; [reflexivity|].
  now rewrite ascii_lower_idem, IH.
Qed.

Lemma lower_length (s : string) : String.length (lower s) = String.length s.
Proof. induction s as [|c s IH]; simpl; [reflexivity|]. now rewrite IH. Qed.

(** A record matches a name that is, up to case, its [name]. *)
Lemma match_name_field (name n : string) (s : Substance.t) :
  Substance.name s = Some n -> lower name = lower n ->
  substance_name_match name s = true.
Proof.
  intros Hn Heq. unfold substance_name_match. rewrite Hn. simpl.
  rewrite Heq, String.eqb_refl. reflexivity.
Qed.

Lemma find_substance_is_Some (data : list Substance.t) (name : string) (s : Substance.t) :
  s ∈ data -> substance_name_match name s = true ->
  is_Some (find_substance_in_data data name).
Proof.
  intros Hin Hs. destruct (find_substance_in_data data name) as [x|] eqn:Hfind; [eauto|].
  apply find_substance_none in Hfind. rewrite Forall_forall in Hfind.
  specialize (Hfind s Hin). congruence.
Qed.

(** The look-up returns the first record of the list that matches: no
    record before it matches; it returns nothing only when no record of
    the list matches. *)
Theorem find_substance_first_match (data : list Substance.t) (name : string) :
  match find_substance_in_data data name with
  | Some s =>
      substance_name_match name s = true
      /\ exists before after,
           data = before ++ s :: after
           /\ Forall (fun x => substance_name_match name x = false) before
  | None => Forall (fun x => substance_name_match name x = false) data
  end.
Proof.
  destruct (find_substance_in_data data name) as [s|] eqn:Hfind.
  - destruct (find_substance_split _ _ _ Hfind) as (before & after & Hdata & Hall & Hs).
    split; [exact Hs|]. eauto.
  - now apply find_substance_none.
Qed.

Lemma elem_of_all_substance_names (pw ts : list Substance.t) (n : string) :
  n ∈ all_substance_names pw ts <->
  exists s, s ∈ pw ++ ts /\ n = lower (default "" (Substance.name s)).
Proof.
  unfold all_substance_names.
  rewrite elem_of_sorted, elem_of_elements, elem_of_list_to_set, <- map_app.
  rewrite list_elem_of_In, in_map_iff. setoid_rewrite list_elem_of_In.
  split; intros (s & H1 & H2); exists s; auto.
Qed.

(** The loop visits the lowercased name of every record that has a
    [name], and at the start of the loop that name finds a record in the
    list the record is in. *)
Theorem record_names_are_visited (pw ts : list Substance.t) (s : Substance.t)
    (n : string) :
  s ∈ pw ++ ts -> Substance.name s = Some n ->
  lower n ∈ all_substance_names pw ts
  /\ substance_name_match (lower n) s = true
  /\ (s ∈ pw -> is_Some (find_substance_in_data pw (lower n)))
  /\ (s ∈ ts -> is_Some (find_substance_in_data ts (lower n))).
Proof.
  intros Hin Hn.
  assert (Hm : substance_name_match (lower n) s = true).
  { apply (match_name_field _ n); [exact Hn|apply lower_idem]. }
  split.
  - apply elem_of_all_substance_names. exists s. rewrite Hn. auto.
  - split; [exact Hm|]. split; intros Hs; now apply (find_substance_is_Some _ _ s).
Qed.

(** ** Consumption over the whole loop *)

(** Over the whole loop every record of either list is merged at most
    once: the records the iterations took from Source A, counted with
    repetition, are records of the Source A list, each used no more often
    than it occurs there; the same for Source B. *)
Theorem loop_consumes_once (pw ts : list Substance.t) (its : list iteration) :
  merge_iterations (all_substance_names pw ts) pw ts = Ok its ->
  List.filter Substance.truthy (map it_pw its) ⊆+ pw
  /\ List.filter Substance.truthy (map it_ts its) ⊆+ ts.
Proof. apply consumed_submseteq. Qed.

Lemma appended_needs_source_a (pw ts : Substance.t) (c : CanonicalSubstance.t) :
  merge_records pw ts = Ok (Some c) -> Substance.truthy pw = true.
Proof.
  intros H. apply merge_records_inv in H. destruct H as (_ & _ & Hroas & Hne).
  destruct (Substance.truthy pw) eqn:Htr; [reflexivity|].
  apply truthy_false_empty in Htr. subst pw. simpl in Hroas. congruence.
Qed.

Lemma appended_count (names : list string) :
  forall (pw ts : list Substance.t) (its : list iteration),
    merge_iterations names pw ts = Ok its ->
    length (appended_records its)
    <= length (List.filter Substance.truthy (map it_pw its)).
Proof.
  induction names as [|name names IH]; intros pw ts its; simpl.
  - intros [= <-]. simpl. lia.
  - destruct (find_and_consume pw name) as [[a pw_rest]|e] eqn:Ha; simpl; [|discriminate].
    destruct (find_and_consume ts name) as [[t ts_rest]|e] eqn:Ht; simpl; [|discriminate].
    destruct (merge_records a t) as [[c|]|e] eqn:Hm; simpl; [| |discriminate].
    all: destruct (merge_iterations names pw_rest ts_rest) as [later|e] eqn:Hlater; simpl;
      [|discriminate].
    all: intros [= <-]; specialize (IH _ _ _ Hlater); unfold appended_records in *; simpl.
    + rewrite (appended_needs_source_a _ _ _ Hm). simpl. lia.
    + destruct (Substance.truthy a); simpl; lia.
Qed.

(** The output has at most one record per Source A record, and at most
    one per iteration name. *)
Theorem output_size (pw ts : list Substance.t)
    (substance_data : list CanonicalSubstance.t) :
  reconcile pw ts = Ok substance_data ->
  length substance_data <= length pw
  /\ length substance_data <= length (all_substance_names pw ts).
Proof.
  rewrite reconcile_iterations.
  destruct (merge_iterations (all_substance_names pw ts) pw ts) as [its|e] eqn:Hits;
    simpl; [|discriminate].
  intros [= <-]. split.
  - etrans; [exact (appended_count _ _ _ _ Hits)|].
    apply submseteq_length. exact (proj1 (consumed_submseteq _ _ _ _ Hits)).
  - rewrite <- (merge_iterations_names _ _ _ _ Hits), length_map.
    unfold appended_records. clear. induction its as [|it its IH]; simpl; [lia|].
    rewrite length_app. destruct (it_appended it); simpl; lia.
Qed.

(** ** The retry helper, attempt by attempt *)

Lemma try_attempts_log {W A} (func : W -> result A * W) (remaining : nat) :
  forall w,
    let '(r, w', log) := try_attempts func remaining w in
    sleep_seconds log = count_printed log
    /\ match r with
       | Some a =>
           (exists w0, func w0 = (Ok a, w'))
           /\ count_calls log = S (count_printed log)
           /\ count_calls log <= remaining
           /\ last log = Some Called
       | None =>
           count_calls log = remaining /\ count_printed log = remaining
       end.
Proof.
  induction remaining as [|k IH]; intros w; simpl.
  - auto.
  - destruct (func w) as [[a|e] w1] eqn:Hcall.
    + simpl. repeat split; try lia. eauto.
    + specialize (IH w1). destruct (try_attempts func k w1) as [[r w2] log].
      destruct IH as [Hs Hr]. cbn [sleep_seconds count_printed count_calls].
      split; [lia|]. destruct r as [a|].
      * destruct Hr as (Hfrom & Hc & Hle & Hlast). repeat split; try lia; [exact Hfrom|].
        destruct log as [|ev log]; [discriminate Hlast|]. exact Hlast.
      * destruct Hr as [Hc Hp]. split; lia.
Qed.

(** The helper sleeps one second for each exception it prints and for
    nothing else.  When it returns a value, a call gave it, that call is
    the last thing the helper did, and at most two calls failed before;
    when it returns [None], it has called three times and each call has
    raised. *)
Theorem try_three_times_outcome {W A} (func : W -> result A * W) (w : W) :
  let '(r, w', log) := try_three_times func w in
  sleep_seconds log = count_printed log
  /\ match r with
     | Some a =>
         (exists w0, func w0 = (Ok a, w'))
         /\ count_calls log = S (count_printed log)
         /\ count_printed log <= 2
         /\ last log = Some Called
     | None => count_calls log = 3 /\ count_printed log = 3
     end.
Proof.
  unfold try_three_times. pose proof (try_attempts_log func 3 w) as H.
  destruct (try_attempts func 3 w) as [[r w'] log]. destruct H as [Hs Hr].
  split; [exact Hs|]. destruct r as [a|]; [|exact Hr].
  destruct Hr as (Hfrom & Hc & Hle & Hlast).
  repeat split; [exact Hfrom|exact Hc|lia|exact Hlast].
Qed.

(** ** The interactions *)

Lemma dict_get_set {V} (k : string) (v : V) (d : dict V) :
  dict_get k (dict_set k v d) = Some v.
Proof.
  induction d as [|[k' v'] d IH]; simpl.
  - now rewrite String.eqb_refl.
  - destruct (String.eqb k k') eqn:Hk; simpl; rewrite Hk; [reflexivity|exact IH].
Qed.

Lemma insert_by_sorted_key {A} (key : A -> string) (x : A) (l : list A) :
  Sorted (fun a b => String.le (key a) (key b)) l ->
  Sorted (fun a b => String.le (key a) (key b)) (insert_by key x l).
Proof.
  induction 1 as [|y l Hl IH Hhd]; simpl.
  - repeat constructor.
  - destruct (String.leb (key x) (key y)) eqn:Hxy.
    + constructor; [now constructor|]. constructor. unfold String.le. now rewrite Hxy.
    + constructor; [exact IH|].
      destruct Hhd as [|z l Hyz]; simpl.
      * constructor. now apply leb_false_le.
      * destruct (String.leb (key x) (key z)); constructor; auto using leb_false_le.
Qed.

Lemma sorted_by_sorted {A} (key : A -> string) (l : list A) :
  Sorted (fun a b => String.le (key a) (key b)) (sorted_by key l).
Proof.
  unfold sorted_by. induction l as [|x l IH]; simpl.
  - constructor.
  - now apply insert_by_sorted_key.
Qed.

Lemma known_combo_table (key : string) (combo_data : dict json) (display : string) :
  dict_get key ts_combo_transformations = Some display -> known_combo (key, combo_data).
Proof. intros H. right. cbn [fst]. rewrite H. eauto. Qed.

Lemma known_combo_ignored (key : string) (combo_data : dict json) :
  key ∈ ts_combo_ignore -> known_combo (key, combo_data).
Proof. intros H. now left. Qed.

Lemma unknown_combo (key : string) (combo_data : dict json) :
  key ∉ ts_combo_ignore -> dict_get key ts_combo_transformations = None ->
  ~ known_combo (key, combo_data).
Proof.
  intros Hig Hd [Hin|[x Hx]]; cbn [fst] in *; [contradiction|].
  rewrite Hd in Hx. discriminate.
Qed.

(** What the loop over the combos gives: the named dicts of the keys
    that are not ignored, in order, when every key is ignored or in the
    table; otherwise the [KeyError] of the first key that is neither. *)
Lemma transform_combos_result (entries : dict (dict json)) :
  match fst (transform_combos entries) with
  | Ok interactions =>
      Forall known_combo entries
      /\ interactions
         = map (fun entry => name_combo (fst entry) (snd entry)) (kept_combos entries)
  | Raise e =>
      exists before key combo_data after,
        entries = before ++ (key, combo_data) :: after
        /\ Forall known_combo before
        /\ ~ known_combo (key, combo_data)
        /\ e = KeyError key
  end.
Proof.
  induction entries as [|[key combo_data] rest IH];
    cbn [transform_combos kept_combos List.filter fst snd map].
  - split; [constructor|reflexivity].
  - destruct (bool_decide (key ∈ ts_combo_ignore)) eqn:Hig; cbn [negb fst snd].
    + apply bool_decide_eq_true in Hig.
      destruct (transform_combos rest) as [[r|e] rest']; cbn [fst snd] in *.
      * destruct IH as [Hall ->]. split; [|reflexivity].
        constructor; [now apply known_combo_ignored|exact Hall].
      * destruct IH as (before & k & cd & after & -> & Hbefore & Hk & ->).
        exists ((key, combo_data) :: before), k, cd, after.
        split; [reflexivity|]. split; [|auto].
        constructor; [now apply known_combo_ignored|exact Hbefore].
    + apply bool_decide_eq_false in Hig.
      destruct (dict_get key ts_combo_transformations) as [display|] eqn:Hd.
      * destruct (transform_combos rest) as [[r|e] rest']; cbn [fst snd] in *.
        -- destruct IH as [Hall ->]. split.
           ++ constructor; [now apply (known_combo_table _ _ display)|exact Hall].
           ++ cbn [map fst snd fmap result_fmap]. unfold name_combo at 2.
              rewrite (bool_decide_eq_false_2 _ Hig), Hd. reflexivity.
        -- destruct IH as (before & k & cd & after & -> & Hbefore & Hk & ->).
           exists ((key, combo_data) :: before), k, cd, after.
           split; [reflexivity|]. split; [|auto].
           constructor; [now apply (known_combo_table _ _ display)|exact Hbefore].
      * cbn [fst]. exists [], key, combo_data, rest.
        split; [reflexivity|]. split; [constructor|]. split; [|reflexivity].
        now apply unknown_combo.
Qed.

(** The interactions of a pair.  With no combos, or an empty combo dict,
    there are none ([None]).  Otherwise every combo key is ignored or
    looked up in the table; if all can be, the interactions are the combo
    dicts of the keys that are not ignored (so possibly an empty list),
    each with its display name under [name], in ascending order of display
    name; if one cannot, the merge raises the [KeyError] of such a key. *)
Theorem interactions_policy (σ : merge_pair) :
  match fst (merge_interactions σ) with
  | Ok None =>
      Substance.combos (ts_substance σ) = None
      \/ Substance.combos (ts_substance σ) = Some []
  | Ok (Some interactions) =>
      exists entries,
        Substance.combos (ts_substance σ) = Some entries
        /\ entries <> []
        /\ Forall known_combo entries
        /\ interactions
           ≡ₚ map (fun entry => name_combo (fst entry) (snd entry)) (kept_combos entries)
        /\ Sorted interaction_le interactions
        /\ Forall (fun i => exists key display,
                       (key ∉ ts_combo_ignore)
                       /\ dict_get key ts_combo_transformations = Some display
                       /\ dict_get "name" i = Some (JStr display)) interactions
  | Raise e =>
      exists entries key combo_data,
        Substance.combos (ts_substance σ) = Some entries
        /\ ((key, combo_data) ∈ entries)
        /\ ~ known_combo (key, combo_data)
        /\ e = KeyError key
  end.
Proof.
  unfold merge_interactions. unfold_M.
  destruct (Substance.combos (ts_substance σ)) as [[|entry more]|] eqn:Hc;
    cbn [fst snd]; auto.
  pose proof (transform_combos_result (entry :: more)) as Hres.
  destruct (transform_combos (entry :: more)) as [[r|e] entries'];
    cbn [fst snd] in *.
  - destruct Hres as [Hknown ->]. exists (entry :: more).
    split; [reflexivity|]. split; [discriminate|]. split; [exact Hknown|].
    split; [apply sorted_by_perm|]. split; [apply sorted_by_sorted|].
    rewrite sorted_by_perm. apply Forall_forall. intros i Hi.
    apply list_elem_of_In, in_map_iff in Hi. destruct Hi as ([key cd] & <- & Hin).
    unfold kept_combos in Hin. apply filter_In in Hin. destruct Hin as [Hin Hkeep].
    apply negb_true_iff, bool_decide_eq_false in Hkeep. cbn [fst] in Hkeep.
    rewrite Forall_forall in Hknown.
    destruct (Hknown (key, cd) (proj2 (list_elem_of_In _ _) Hin)) as [Hig|[display Hd]];
      [contradiction|]. cbn [fst] in Hd.
    exists key, display. split; [exact Hkeep|]. split; [exact Hd|].
    cbn [fst snd]. unfold name_combo.
    rewrite (bool_decide_eq_false_2 _ Hkeep), Hd. apply dict_get_set.
  - destruct Hres as (before & key & cd & after & Hentries & _ & Hk & ->).
    exists (entry :: more), key, cd. split; [reflexivity|].
    split; [|auto]. rewrite Hentries. apply list_elem_of_In, in_elt.
Qed.

(** ** When the merge raises *)

Lemma merge_url_ok (pw ts : Substance.t) :
  match merge_url pw ts with
  | Ok u =>
      (exists v, Substance.url pw = Some v /\ v <> "") \/ is_Some (Substance.name ts)
  | Raise e =>
      e = KeyError "name" /\ Substance.name ts = None
      /\ ~ (exists v, Substance.url pw = Some v /\ v <> "")
  end.
Proof.
  unfold merge_url.
  destruct (Substance.url pw) as [u|], (Substance.name ts) as [n|]; simpl.
  - destruct (nonempty u); eauto.
  - destruct (nonempty u) eqn:Hu.
    + left. exists u. split; [reflexivity|now apply nonempty_iff].
    + split; [reflexivity|]. split; [reflexivity|].
      intros (v & [= <-] & Hv). apply nonempty_iff in Hv. congruence.
  - eauto.
  - split; [reflexivity|]. split; [reflexivity|]. intros (v & [=] & _).
Qed.

Lemma choose_name_ok (pw ts : Substance.t) :
  match choose_name pw ts with
  | Ok n =>
      (Substance.name pw = Some n \/ Substance.pretty_name ts = Some n) /\ n <> ""
  | Raise e =>
      e = ValueError "min() arg is an empty sequence"
      /\ ~ (exists n, (Substance.name pw = Some n \/ Substance.pretty_name ts = Some n)
                      /\ n <> "")
  end.
Proof.
  destruct (choose_name pw ts) as [n|e] eqn:Hc.
  - unfold choose_name in Hc. apply min_by_len_elem, keep_names_spec in Hc.
    destruct Hc as [Hin Hne]. split; [|exact Hne].
    rewrite !elem_of_cons, elem_of_nil in Hin. intuition congruence.
  - unfold choose_name in Hc.
    destruct (keep_names [Substance.name pw; Substance.pretty_name ts]) as [|x l] eqn:Hk;
      simpl in Hc; [|discriminate].
    injection Hc as <-. split; [reflexivity|]. intros (n & Hn & Hne).
    assert (Hin : n ∈ keep_names [Substance.name pw; Substance.pretty_name ts]).
    { apply keep_names_spec. split; [|exact Hne].
      rewrite !elem_of_cons. intuition congruence. }
    rewrite Hk in Hin. now apply elem_of_nil in Hin.
Qed.

Lemma merge_interactions_ok (σ : merge_pair) :
  match fst (merge_interactions σ) with
  | Ok _ => Forall known_combo (default [] (Substance.combos (ts_substance σ)))
  | Raise e =>
      exists key combo_data,
        (key, combo_data) ∈ default [] (Substance.combos (ts_substance σ))
        /\ ~ known_combo (key, combo_data)
        /\ e = KeyError key
  end.
Proof.
  unfold merge_interactions. unfold_M.
  destruct (Substance.combos (ts_substance σ)) as [[|entry more]|] eqn:Hc;
    cbn [fst snd default]; try constructor.
  pose proof (transform_combos_result (entry :: more)) as Hres.
  destruct (transform_combos (entry :: more)) as [[r|e] entries'];
    cbn [fst snd] in *.
  - exact (proj1 Hres).
  - destruct Hres as (before & key & cd & after & Hentries & _ & Hk & ->).
    exists key, cd. split; [|auto]. rewrite Hentries. apply list_elem_of_In, in_elt.
Qed.

(** The merge of a pair raises in three cases and no other: Source A
    has no usable url and Source B no [name] ([KeyError] on [name]);
    neither the Source A name nor the Source B pretty name is a non-empty
    string ([ValueError] of [min]); a combo key is neither ignored nor in
    the display-name table ([KeyError] on that key). *)
Theorem merge_fields_exceptions (σ : merge_pair) :
  let pw := pw_substance σ in
  let ts := ts_substance σ in
  (is_Ok (fst (merge_fields σ)) <->
   ((exists u, Substance.url pw = Some u /\ u <> "") \/ is_Some (Substance.name ts))
   /\ (exists n, (Substance.name pw = Some n \/ Substance.pretty_name ts = Some n)
                 /\ n <> "")
   /\ Forall known_combo (default [] (Substance.combos ts)))
  /\ (forall e, fst (merge_fields σ) = Raise e ->
        e = KeyError "name"
        \/ e = ValueError "min() arg is an empty sequence"
        \/ exists key combo_data,
             (key, combo_data) ∈ default [] (Substance.combos ts)
             /\ ~ known_combo (key, combo_data)
             /\ e = KeyError key).
Proof.
  intros pw ts. subst pw ts.
  destruct (merge_fields σ) as [r σ'] eqn:Hmf. cbn [fst].
  apply merge_fields_inv in Hmf. cbv zeta in Hmf.
  pose proof (merge_url_ok (pw_substance σ) (ts_substance σ)) as Hu.
  pose proof (choose_name_ok (pw_substance σ) (ts_substance σ)) as Hn.
  pose proof (merge_interactions_ok σ) as Hi.
  destruct Hmf as [(e & -> & _ & [He|[[u Hu'] He]])|(u & n & Hu' & Hn' & _ & Hr)].
  - rewrite He in Hu. destruct Hu as (-> & Hname & Hurl). split.
    + split; [intros []|]. intros ([Hurl'|Hname'] & _); [contradiction|].
      rewrite Hname in Hname'. now destruct Hname'.
    + intros e [= <-]. now left.
  - rewrite He in Hn. destruct Hn as (-> & Hnone). split.
    + split; [intros []|]. intros (_ & Hsome & _). contradiction.
    + intros e [= <-]. right. now left.
  - rewrite Hu' in Hu. rewrite Hn' in Hn.
    destruct (fst (merge_interactions σ)) as [i|e].
    + destruct r as [out|e]; [|destruct Hr]. split.
      * split; [|intros _; exact I]. intros _. eauto.
      * intros e [=].
    + subst r. destruct Hi as (key & cd & Hin & Hk & ->). split.
      * split; [intros []|]. intros (_ & _ & Hall).
        rewrite Forall_forall in Hall. exfalso. exact (Hk (Hall _ Hin)).
      * intros e [= <-]. right. right. eauto.
Qed.

(** ** When the reconciliation returns *)

Lemma merge_records_ok (a t : Substance.t) :
  scraped a \/ a = Substance.empty ->
  factsheet t \/ t = Substance.empty ->
  is_Ok (merge_records a t).
Proof.
  intros Ha Ht. unfold merge_records.
  destruct (negb (Substance.truthy a) && negb (Substance.truthy t)) eqn:Hboth; [exact I|].
  destruct (merge_fields {| pw_substance := a; ts_substance := t |}) as [r σ'] eqn:Hmf.
  cbn [fst]. apply merge_fields_inv in Hmf. cbv zeta in Hmf. cbn [pw_substance ts_substance] in Hmf.
  pose proof (merge_url_ok a t) as Hu. pose proof (choose_name_ok a t) as Hn.
  pose proof (merge_interactions_ok {| pw_substance := a; ts_substance := t |}) as Hi.
  cbn [ts_substance] in Hi.
  assert (Hcombos : Forall known_combo (default [] (Substance.combos t))).
  { destruct Ht as [(_ & _ & H)| ->]; [exact H|constructor]. }
  assert (Hurl : (exists v, Substance.url a = Some v /\ v <> "") \/ is_Some (Substance.name t)).
  { destruct Ha as [[_ H]| ->]; [now left|]. destruct Ht as [(H & _)| ->]; [now right|].
    discriminate Hboth. }
  assert (Hname : exists n, (Substance.name a = Some n \/ Substance.pretty_name t = Some n)
                            /\ n <> "").
  { destruct Ha as [[(n & Hn1 & Hn2) _]| ->]; [eauto|].
    destruct Ht as [(_ & (p & Hp1 & Hp2) & _)| ->]; [eauto|]. discriminate Hboth. }
  destruct Hmf as [(e & -> & _ & [He|[_ He]])|(u & n & Hu' & Hn' & _ & Hr)].
  - rewrite He in Hu. destruct Hu as (_ & Hnone & Hno).
    destruct Hurl as [H|H]; [contradiction|]. rewrite Hnone in H. now destruct H.
  - rewrite He in Hn. destruct Hn as (_ & Hno). contradiction.
  - destruct (fst (merge_interactions _)) as [i|e].
    + destruct r; [exact I|destruct Hr].
    + destruct Hi as (key & cd & Hin & Hk & _). rewrite Forall_forall in Hcombos.
      exfalso. exact (Hk (Hcombos _ Hin)).
Qed.

Lemma find_and_consume_Forall (P : Substance.t -> Prop) (data : list Substance.t)
    (name : string) :
  Forall P data ->
  exists s rest,
    find_and_consume data name = Ok (s, rest)
    /\ (P s \/ s = Substance.empty) /\ Forall P rest.
Proof.
  intros Hall.
  destruct (find_and_consume_cases data name)
    as [(s & before & after & -> & _ & _ & _ & Hfc)|[_ Hfc]].
  - exists s, (before ++ after). split; [exact Hfc|].
    apply Forall_app in Hall. destruct Hall as [Hb Ha].
    apply Forall_cons in Ha. destruct Ha as [Hs Ha].
    split; [now left|]. apply Forall_app. auto.
  - exists Substance.empty, data. auto.
Qed.

Lemma merge_iterations_ok (names : list string) :
  forall pw ts : list Substance.t,
    Forall scraped pw -> Forall factsheet ts ->
    exists its, merge_iterations names pw ts = Ok its.
Proof.
  induction names as [|name names IH]; intros pw ts Hpw Hts; simpl; [eauto|].
  destruct (find_and_consume_Forall scraped pw name Hpw) as (a & pw_rest & -> & Ha & Hpw').
  destruct (find_and_consume_Forall factsheet ts name Hts) as (t & ts_rest & -> & Ht & Hts').
  simpl. pose proof (merge_records_ok a t Ha Ht) as Hok.
  destruct (merge_records a t) as [appended|e]; [|destruct Hok]. simpl.
  destruct (IH pw_rest ts_rest Hpw' Hts') as [later ->]. simpl. eauto.
Qed.

(** The reconciliation returns a list, no exception, when every Source A
    record has a non-empty name and a non-empty url (as the scraper makes
    them) and every Source B record has a name, a non-empty pretty name
    and only combo keys that are ignored or in the display-name table. *)
Theorem reconcile_returns (pw ts : list Substance.t) :
  Forall scraped pw -> Forall factsheet ts ->
  exists substance_data, reconcile pw ts = Ok substance_data.
Proof.
  intros Hpw Hts. rewrite reconcile_iterations.
  destruct (merge_iterations_ok (all_substance_names pw ts) pw ts Hpw Hts) as [its ->].
  simpl. eauto.
Qed.

(** ** Trimmed text *)

Lemma lstrip_head (s : string) :
  match lstrip s with
  | EmptyString => True
  | String c _ => is_whitespace c = false
  end.
Proof.
  induction s as [|c s IH]; simpl; [exact I|].
  destruct (is_whitespace c) eqn:Hc; [exact IH|exact Hc].
Qed.

Lemma lstrip_fixed (s : string) :
  match s with
  | EmptyString => True
  | String c _ => is_whitespace c = false
  end -> lstrip s = s.
Proof. destruct s as [|c s]; simpl; [reflexivity|]. now intros ->. Qed.

Lemma rstrip_idem (s : string) : rstrip (rstrip s) = rstrip s.
Proof.
  induction s as [|c s IH]; simpl; [reflexivity|].
  destruct (rstrip s) as [|k kept] eqn:Hk.
  - destruct (is_whitespace c) eqn:Hc; simpl; [reflexivity|now rewrite Hc].
  - change (rstrip (String c (String k kept))) with
      (match rstrip (String k kept) with
       | EmptyString => if is_whitespace c then EmptyString else String c EmptyString
       | String k' kept' => String c (String k' kept')
       end).
    now rewrite IH.
Qed.

Lemma rstrip_head (s : string) :
  match s with
  | EmptyString => True
  | String c _ => is_whitespace c = false
  end ->
  match rstrip s with
  | EmptyString => s = EmptyString
  | String c _ => is_whitespace c = false
  end.
Proof.
  destruct s as [|c s]; simpl; [reflexivity|]. intros Hc.
  destruct (rstrip s); [now rewrite Hc|exact Hc].
Qed.

Lemma strip_idem (s : string) : strip (strip s) = strip s.
Proof.
  unfold strip. rewrite (lstrip_fixed (rstrip (lstrip s))); [apply rstrip_idem|].
  pose proof (rstrip_head (lstrip s) (lstrip_head s)) as H.
  destruct (rstrip (lstrip s)); [exact I|exact H].
Qed.


(** ** Shape of the aliases *)

Lemma lower_nonempty (s : string) : s <> "" -> lower s <> "".
Proof. destruct s; simpl; [congruence|discriminate]. Qed.

(** Every alias of an appended record is a non-empty string in lower
    case. *)
Theorem aliases_lowercase (pw ts : Substance.t) (c : CanonicalSubstance.t) :
  merge_records pw ts = Ok (Some c) ->
  Forall (fun alias => alias <> "" /\ lower alias = alias) (CanonicalSubstance.aliases c).
Proof.
  intros H. apply merge_records_inv in H. destruct H as (_ & Hal & _).
  rewrite Hal. apply Forall_forall. intros x Hx.
  apply merge_aliases_spec in Hx. destruct Hx as [(n & _ & Hne & ->) _].
  split; [now apply lower_nonempty|apply lower_idem].
Qed.

(** ** The bioavailability mapping *)

Lemma span_fst_Forall (p : ascii -> bool) (s : list ascii) :
  Forall (fun c => p c = true) (fst (span p s)).
Proof.
  induction s as [|c s IH]; simpl; [constructor|].
  destruct (p c) eqn:Hc; [|constructor].
  destruct (span p s) as [run tail]. simpl in *. now constructor.
Qed.

Lemma give_back_head (seps suffix : list ascii) :
  give_back seps = Some suffix ->
  exists c rest, suffix = c :: rest /\ is_value_char c = true.
Proof.
  revert suffix. induction seps as [|c seps IH]; intros suffix; simpl; [discriminate|].
  destruct (give_back seps) as [inner|].
  - intros [= <-]. now apply IH.
  - destruct (is_value_char c) eqn:Hc; [|discriminate]. intros [= <-]. eauto.
Qed.

(** The two groups of a match: a non-empty run of route characters and a
    non-empty run of value characters. *)
Lemma match_at_groups (s route value rest : list ascii) :
  match_at s = Some (route, value, rest) ->
  route <> [] /\ Forall (fun c => is_route_char c = true) route
  /\ value <> [] /\ Forall (fun c => is_value_char c = true) value.
Proof.
  unfold match_at.
  pose proof (span_fst_Forall is_route_char s) as H1.
  destruct (span is_route_char s) as [[|r1 route'] after_route]; [discriminate|].
  destruct (span is_sep_char after_route) as [[|sep1 seps] after_seps]; [discriminate|].
  pose proof (span_fst_Forall is_value_char after_seps) as H3.
  destruct (span is_value_char after_seps) as [[|v value'] rest'].
  - destruct (give_back seps) as [suffix|] eqn:Hg; [|discriminate].
    apply give_back_head in Hg. destruct Hg as (c & tail & -> & Hc).
    pose proof (span_fst_Forall is_value_char ((c :: tail) ++ after_seps)) as H4.
    simpl in H4 |- *. rewrite Hc in H4 |- *.
    destruct (span is_value_char (tail ++ after_seps)) as [run rest''].
    intros [= <- <- <-]. simpl in *. repeat split; auto; discriminate.
  - intros [= <- <- <-]. simpl in *. repeat split; auto; discriminate.
Qed.

Lemma findall_from_groups (steps : nat) :
  forall s : list ascii,
    Forall (fun '(route, value) =>
              route <> [] /\ Forall (fun c => is_route_char c = true) route)
           (findall_from steps s).
Proof.
  induction steps as [|n IH]; intros s; simpl; [constructor|].
  destruct s as [|c tail]; [constructor|].
  destruct (match_at (c :: tail)) as [[[route value] rest]|] eqn:Hm.
  - apply match_at_groups in Hm. destruct Hm as (Hne & Hall & _).
    constructor; [auto|apply IH].
  - apply IH.
Qed.

Lemma ascii_lower_route (c : ascii) :
  is_route_char c = true -> is_key_char (ascii_lower c) = true.
Proof.
  destruct c as [[] [] [] [] [] [] [] []]; intros H;
    try discriminate H; reflexivity.
Qed.

Lemma lower_list (l : list ascii) :
  list_ascii_of_string (lower (string_of_list_ascii l)) = map ascii_lower l.
Proof. induction l as [|c l IH]; simpl; [reflexivity|]. now rewrite IH. Qed.

Lemma dict_set_keys {V} (k : string) (v : V) (d : dict V) :
  map fst (dict_set k v d) = map fst d /\ k ∈ map fst d
  \/ map fst (dict_set k v d) = map fst d ++ [k] /\ k ∉ map fst d.
Proof.
  induction d as [|[k' v'] d IH]; simpl.
  - right. split; [reflexivity|apply not_elem_of_nil].
  - destruct (String.eqb_spec k k') as [->|Hne]; simpl.
    + left. split; [reflexivity|apply list_elem_of_here].
    + destruct IH as [[-> Hin]|[-> Hnotin]].
      * left. split; [reflexivity|now apply list_elem_of_further].
      * right. split; [reflexivity|]. rewrite not_elem_of_cons. auto.
Qed.

Lemma lstrip_chars_head (p : ascii -> bool) (l : list ascii) :
  match lstrip_chars p l with
  | [] => True
  | c :: _ => p c = false
  end.
Proof.
  induction l as [|c l IH]; simpl; [exact I|].
  destruct (p c) eqn:Hc; [exact IH|exact Hc].
Qed.

Lemma lstrip_chars_fixed (p : ascii -> bool) (l : list ascii) :
  match l with
  | [] => True
  | c :: _ => p c = false
  end -> lstrip_chars p l = l.
Proof. destruct l as [|c l]; simpl; [reflexivity|]. now intros ->. Qed.

Lemma lstrip_chars_last (p : ascii -> bool) (l : list ascii) (h : ascii) :
  p h = false -> exists l', lstrip_chars p (l ++ [h]) = l' ++ [h].
Proof.
  intros Hh. induction l as [|c l IH]; simpl.
  - rewrite Hh. now exists [].
  - destruct (p c); [exact IH|]. now exists (c :: l).
Qed.

Lemma trim_idem (p : ascii -> bool) (l : list ascii) :
  let trim l := rev (lstrip_chars p (rev (lstrip_chars p l))) in
  trim (trim l) = trim l.
Proof.
  intros trim. subst trim. cbv beta.
  pose proof (lstrip_chars_head p l) as Hu.
  destruct (lstrip_chars p l) as [|h u]; [reflexivity|].
  set (X := lstrip_chars p (rev (h :: u))).
  assert (HX : exists w, X = w ++ [h]).
  { subst X. simpl. now apply lstrip_chars_last. }
  assert (HXh : lstrip_chars p X = X).
  { apply lstrip_chars_fixed. subst X. apply lstrip_chars_head. }
  destruct HX as [w Hw].
  assert (Hrev : lstrip_chars p (rev X) = rev X).
  { rewrite Hw, rev_app_distr. simpl. now rewrite Hu. }
  rewrite Hrev, rev_involutive, HXh. reflexivity.
Qed.

Lemma strip_chars_idem (p : ascii -> bool) (s : string) :
  strip_chars p (strip_chars p s) = strip_chars p s.
Proof.
  unfold strip_chars. rewrite list_ascii_of_string_of_list_ascii.
  f_equal. apply (trim_idem p).
Qed.

Lemma parse_fold (matches : list (string * string)) :
  forall acc : dict string,
    let good (entry : string * string) :=
      fst entry <> ""
      /\ Forall (fun c => is_key_char c = true) (list_ascii_of_string (fst entry))
      /\ strip_chars is_dot_space_tab (snd entry) = snd entry in
    Forall (fun m => fst m <> ""
                     /\ Forall (fun c => is_route_char c = true)
                          (list_ascii_of_string (fst m))) matches ->
    NoDup (map fst acc) -> Forall good acc ->
    let result :=
      fold_left (fun acc '(roa_name, value) =>
                   dict_set (lower roa_name) (strip_chars is_dot_space_tab value) acc)
                matches acc in
    NoDup (map fst result) /\ Forall good result.
Proof.
  induction matches as [|[roa_name value] matches IH]; intros acc good Hm Hnd Hgood;
    cbn [fold_left]; [auto|].
  apply Forall_cons in Hm. destruct Hm as [[Hne Hroute] Hm]. cbn [fst] in Hne, Hroute.
  apply IH; [exact Hm| |].
  - destruct (dict_set_keys (lower roa_name) (strip_chars is_dot_space_tab value) acc)
      as [[-> _]|[-> Hnotin]]; [exact Hnd|].
    apply NoDup_app. split; [exact Hnd|]. split; [|apply NoDup_singleton].
    intros x Hx Hx'. apply list_elem_of_singleton in Hx'. now subst x.
  - assert (Hnew : good (lower roa_name, strip_chars is_dot_space_tab value)).
    { subst good. cbn [fst snd]. split; [now apply lower_nonempty|].
      split; [|apply strip_chars_idem].
      rewrite <- (string_of_list_ascii_of_string roa_name), lower_list.
      apply Forall_forall. intros c Hc. apply list_elem_of_In, in_map_iff in Hc.
      destruct Hc as (c0 & <- & Hc0). rewrite Forall_forall in Hroute.
      apply ascii_lower_route, Hroute, list_elem_of_In, Hc0. }
    clear IH Hm Hnd. revert Hnew. generalize (lower roa_name) as k.
    generalize (strip_chars is_dot_space_tab value) as v. intros v k Hnew.
    induction Hgood as [|[k' v'] acc Hk' Hacc IHacc]; simpl.
    + constructor; [exact Hnew|constructor].
    + destruct (String.eqb_spec k k') as [->|Hkk].
      * constructor; [exact Hnew|exact Hacc].
      * constructor; [exact Hk'|exact IHacc].
Qed.

(** The mapping read from the bioavailability text has no key twice;
    every key is a non-empty string of lowercase letters and slashes; no
    value begins or ends with a dot, a space or a tab; and a text that is
    missing or blank gives the empty mapping. *)
Theorem bioavailability_mapping (ts_properties : dict string) :
  let mapping := parse_bioavailability ts_properties in
  NoDup (map fst mapping)
  /\ Forall (fun entry =>
               fst entry <> ""
               /\ Forall (fun c => is_key_char c = true) (list_ascii_of_string (fst entry))
               /\ strip_chars is_dot_space_tab (snd entry) = snd entry) mapping
  /\ (strip (default "" (dict_get "bioavailability" ts_properties)) = "" ->
      mapping = []).
Proof.
  intros mapping. subst mapping. unfold parse_bioavailability.
  destruct (nonempty (strip (default "" (dict_get "bioavailability" ts_properties))))
    eqn:Hne.
  - assert (Hlast : strip (default "" (dict_get "bioavailability" ts_properties)) = "" ->
                    False).
    { apply nonempty_iff. exact Hne. }
    cut (let result := fold_left
              (fun acc '(roa_name, value) =>
                 dict_set (lower roa_name) (strip_chars is_dot_space_tab value) acc)
              (findall (strip (default "" (dict_get "bioavailability" ts_properties)))) []
         in NoDup (map fst result) /\ Forall (fun entry =>
               fst entry <> ""
               /\ Forall (fun c => is_key_char c = true) (list_ascii_of_string (fst entry))
               /\ strip_chars is_dot_space_tab (snd entry) = snd entry) result).
    { cbv zeta. intros [H1 H2]. split; [exact H1|]. split; [exact H2|].
      intros H. destruct (Hlast H). }
    apply parse_fold; [|constructor|constructor].
    unfold findall. apply Forall_forall. intros m Hm.
    apply list_elem_of_In, in_map_iff in Hm. destruct Hm as ([route value] & <- & Hin).
    pose proof (findall_from_groups
                  (length (list_ascii_of_string
                             (strip (default "" (dict_get "bioavailability" ts_properties)))))
                  (list_ascii_of_string
                     (strip (default "" (dict_get "bioavailability" ts_properties))))) as Hall.
    rewrite Forall_forall in Hall. specialize (Hall _ (proj2 (list_elem_of_In _ _) Hin)).
    destruct Hall as [Hne' Hroute]. cbn [fst].
    split; [|now rewrite list_ascii_of_string_of_list_ascii].
    destruct route; [congruence|discriminate].
  - split; [constructor|]. split; [constructor|]. reflexivity.
Qed.

(** ** Cleaning a common name *)

Lemma span_app_stop (p : ascii -> bool) (run : list ascii) (c : ascii) (tail : list ascii) :
  Forall (fun x => p x = true) run -> p c = false ->
  span p (run ++ c :: tail) = (run, c :: tail).
Proof.
  intros Hrun Hc. induction Hrun as [|x run Hx Hrun IH]; simpl.
  - now rewrite Hc.
  - now rewrite Hx, IH.
Qed.

(** A string that is empty or ends in a plain character is left alone by
    each substitution at the end. *)
Lemma sub_at_end_plain (s : list ascii) :
  plain s ->
  sub_at_end (one_char_at_end "034") s = s
  /\ sub_at_end citation_at_end s = s
  /\ sub_at_end more_names_at_end s = s
  /\ sub_at_end (one_char_at_end ".") s = s.
Proof.
  intros Hs. assert (Hrev : plain (rev s)).
  { unfold plain in *. rewrite Forall_forall in *. intros c Hc. apply Hs.
    now apply list_elem_of_In, in_rev, list_elem_of_In in Hc. }
  unfold sub_at_end, split_final_newline.
  destruct (rev s) as [|c reversed] eqn:Hr.
  - cbv beta iota. rewrite Hr. repeat split; reflexivity.
  - apply Forall_cons in Hrev. destruct Hrev as [Hc _].
    destruct c as [[] [] [] [] [] [] [] []]; try discriminate Hc;
      cbv beta iota; rewrite Hr; repeat split; reflexivity.
Qed.

Lemma sub_leading_quote_plain (s : list ascii) : plain s -> sub_leading_quote s = s.
Proof.
  intros Hs. destruct Hs as [|c s Hc _]; [reflexivity|].
  destruct c as [[] [] [] [] [] [] [] []]; try discriminate Hc; reflexivity.
Qed.

Lemma clean_plain (s : list ascii) :
  plain s -> pw_clean_common_name (string_of_list_ascii s) = strip (string_of_list_ascii s).
Proof.
  intros Hs. unfold pw_clean_common_name. rewrite list_ascii_of_string_of_list_ascii.
  destruct (sub_at_end_plain s Hs) as (H1 & H2 & H3 & H4).
  now rewrite (sub_leading_quote_plain s Hs), H1, H2, H3, H4.
Qed.

(** What cleaning does to a common name: the result has no white space
    at either end; a name with no double quote, square bracket, period or
    newline is only trimmed; and from such a name in double quotes with a
    citation mark behind it, the quotes and the mark are taken away. *)
Theorem pw_clean_common_name_spec (name : string) (inner digits : list ascii) :
  strip (pw_clean_common_name name) = pw_clean_common_name name
  /\ (plain (list_ascii_of_string name) -> pw_clean_common_name name = strip name)
  /\ (plain inner -> Forall (fun c => is_digit c = true) digits ->
      pw_clean_common_name (quoted_cited inner digits)
      = strip (string_of_list_ascii inner)).
Proof.
  split; [apply strip_idem|]. split.
  - intros Hp. rewrite <- (string_of_list_ascii_of_string name).
    now apply clean_plain.
  - intros Hp Hd. rewrite <- (clean_plain inner Hp).
    unfold pw_clean_common_name, quoted_cited.
    rewrite !list_ascii_of_string_of_list_ascii. cbn [sub_leading_quote].
    set (marked := inner ++ "034"%char :: "["%char :: digits ++ ["]"%char]).
    assert (Hrev : rev marked
                   = "]"%char :: rev digits ++ "["%char :: "034"%char :: rev inner).
    { subst marked. rewrite rev_app_distr. simpl. rewrite rev_app_distr. simpl.
      now rewrite <- !app_assoc. }
    assert (Hquote : sub_at_end (one_char_at_end "034") marked = marked).
    { unfold sub_at_end, split_final_newline. rewrite Hrev. now rewrite Hrev. }
    assert (Hcite : sub_at_end citation_at_end marked = inner).
    { unfold sub_at_end, split_final_newline. rewrite Hrev, Hrev.
      unfold citation_at_end. rewrite span_app_stop.
      - cbn [snd]. now rewrite rev_involutive, app_nil_r.
      - apply Forall_forall. intros c Hc. rewrite Forall_forall in Hd. apply Hd.
        now apply list_elem_of_In, in_rev, list_elem_of_In in Hc.
      - reflexivity. }
    rewrite Hquote, Hcite.
    destruct (sub_at_end_plain inner Hp) as (H1 & H2 & H3 & H4).
    rewrite (sub_leading_quote_plain inner Hp), H1, H2, H3, H4. reflexivity.
Qed.

(** ** The alias list of a page *)

Lemma elem_of_common_names (cell : option string) (api_name name n : string) :
  n ∈ common_names cell api_name name <->
  n <> name
  /\ (n = api_name
      \/ exists text piece,
           cell = Some text /\ piece ∈ split_names text
           /\ n = pw_clean_common_name piece).
Proof.
  unfold common_names. rewrite elem_of_sorted, list_elem_of_In, filter_In.
  rewrite <- list_elem_of_In, elem_of_elements, elem_of_union, elem_of_singleton.
  rewrite negb_true_iff, String.eqb_neq.
  assert (Hcell : n ∈ match cell with
                      | Some text =>
                          (list_to_set (map pw_clean_common_name (split_names text))
                           : gset string)
                      | None => ∅
                      end
                  <-> exists text piece,
                        cell = Some text /\ piece ∈ split_names text
                        /\ n = pw_clean_common_name piece).
  { destruct cell as [text|].
    - rewrite elem_of_list_to_set, list_elem_of_In, in_map_iff. split.
      + intros (piece & <- & Hin). exists text, piece.
        rewrite list_elem_of_In. auto.
      + intros (text' & piece & [= <-] & Hin & ->). exists piece.
        rewrite <- list_elem_of_In. auto.
    - split; [intros H; now apply not_elem_of_empty in H|].
      intros (text & piece & [=] & _). }
  rewrite Hcell. tauto.
Qed.

(** The alias list of a page is strictly ascending, so without
    repetition; it never has the page name; it has the API name of the
    substance unless that is the page name; and its other members are the
    cleaned pieces of the common-names cell, cut at each comma followed by
    a space. *)
Theorem common_names_spec (cell : option string) (api_name name : string) :
  StronglySorted str_lt (common_names cell api_name name)
  /\ (name ∉ common_names cell api_name name)
  /\ (api_name <> name -> api_name ∈ common_names cell api_name name)
  /\ (forall n,
        n ∈ common_names cell api_name name <->
        n <> name
        /\ (n = api_name
            \/ exists text piece,
                 cell = Some text /\ piece ∈ split_names text
                 /\ n = pw_clean_common_name piece)).
Proof.
  split.
  - unfold common_names.
    apply sorted_strict, NoDup_ListNoDup, List.NoDup_filter, NoDup_ListNoDup, NoDup_elements.
  - split; [rewrite elem_of_common_names; tauto|].
    split; [intros Hne; apply elem_of_common_names; auto|].
    intros n. apply elem_of_common_names.
Qed.

(** ** The page loop *)

Lemma match_alias_field (name a : string) (al : list string) (s : Substance.t) :
  Substance.aliases s = Some al -> a ∈ al -> lower name = lower a ->
  substance_name_match name s = true.
Proof.
  intros Hal Hin Heq. unfold substance_name_match. rewrite Hal.
  apply any_true, in_app_iff. right. apply in_map_iff. exists a.
  split; [now rewrite Heq, String.eqb_refl|]. now apply list_elem_of_In.
Qed.

Lemma query_call_site_appended {W} (query : W -> result (list api_substance) * W)
    (url name : string) (common : list string) (w w' : W) (log : list event)
    (s : Substance.t) :
  query_call_site query url name common w = (Appended s, w', log) ->
  Substance.name s = Some name /\ Substance.url s = Some url
  /\ Substance.aliases s = Some common /\ is_Some (Substance.roas s)
  /\ Substance.pretty_name s = None /\ Substance.combos s = None.
Proof.
  unfold query_call_site.
  destruct (try_three_times query w) as [[data w1] log1].
  destruct data as [[|first more]|]; simpl; try discriminate.
  destruct (api_roas first) as [roas|]; [|discriminate].
  intros [= <- _ _]. simpl. repeat split; eauto.
Qed.

Lemma nonempty_false (s : string) : nonempty s = false -> s = "".
Proof. destruct s; [reflexivity|discriminate]. Qed.

(** A record the page loop appends comes from a page with a non-empty
    title that is not an experience report and that has a routes section;
    it has that title as its name, the url of the page, and the alias list
    of the page; and the resolver matches it both with the page title and
    with the name the API has for the substance. *)
Theorem scrape_page_appended {W} (point_query : string -> W -> result (list api_substance) * W)
    (p : page) (w w' : W) (log : list event) (s : Substance.t) :
  scrape_page point_query p w = (Appended s, w', log) ->
  exists name,
    page_title p = Some name /\ name <> "" /\ is_experience name = false
    /\ page_roa_sections p <> 0
    /\ Substance.name s = Some name
    /\ Substance.url s = Some (page_url p)
    /\ Substance.aliases s
       = Some (common_names (page_common_names p) (page_api_name p) name)
    /\ substance_name_match name s = true
    /\ substance_name_match (page_api_name p) s = true.
Proof.
  unfold scrape_page, pw_should_skip.
  destruct (page_title p) as [name|]; [|discriminate].
  destruct (nonempty name) eqn:Hne; simpl; [|discriminate].
  destruct (is_experience name) eqn:Hexp; simpl; [discriminate|].
  destruct (page_roa_sections p =? 0)%nat eqn:Hroa; [discriminate|].
  intros H. apply query_call_site_appended in H.
  destruct H as (Hname & Hurl & Hal & _).
  exists name. split; [reflexivity|]. split; [now apply nonempty_iff|].
  split; [exact Hexp|]. split; [now apply Nat.eqb_neq|].
  split; [exact Hname|]. split; [exact Hurl|]. split; [exact Hal|].
  split; [now apply (match_name_field _ name)|].
  destruct (string_dec (page_api_name p) name) as [Heq|Hneq].
  - rewrite Heq. now apply (match_name_field _ name).
  - apply (match_alias_field _ (page_api_name p) _ _ Hal); [|reflexivity].
    apply elem_of_common_names. auto.
Qed.

Lemma scrape_page_outcome {W} (point_query : string -> W -> result (list api_substance) * W)
    (p : page) (w : W) :
  let '(outcome, w', log) := scrape_page point_query p w in
  count_calls log <= 3
  /\ match outcome with
     | Exited code => code = 1
     | Skipped => True
     | Appended s =>
         (page_url p <> "" -> scraped s)
     end.
Proof.
  destruct (scrape_page point_query p w) as [[outcome w'] log] eqn:Hsp. split.
  - unfold scrape_page in Hsp.
    destruct (pw_should_skip (page_title p) (page_roa_sections p)).
    + injection Hsp as <- <- <-. simpl. lia.
    + unfold query_call_site in Hsp.
      pose proof (try_three_times_at_most_three
                    (point_query (page_api_name p)) w) as Hle.
      destruct (try_three_times (point_query (page_api_name p)) w) as [[data w1] log1].
      injection Hsp as <- <- <-. exact Hle.
  - destruct outcome as [|s|code]; [exact I| |].
    + apply scrape_page_appended in Hsp.
      destruct Hsp as (name & _ & Hne & _ & _ & Hname & Hurl & _).
      intros Hu. split; eauto.
    + unfold scrape_page in Hsp.
      destruct (pw_should_skip (page_title p) (page_roa_sections p)); [discriminate|].
      unfold query_call_site in Hsp.
      destruct (try_three_times (point_query (page_api_name p)) w) as [[data w1] log1].
      destruct (query_body _ _ _ data) as [[s|]|e]; try discriminate.
      now injection Hsp as <- _ _.
Qed.

Lemma count_calls_app (l1 l2 : list event) :
  count_calls (l1 ++ l2) = count_calls l1 + count_calls l2.
Proof.
  induction l1 as [|ev l1 IH]; simpl; [reflexivity|].
  destruct ev; simpl; now rewrite IH.
Qed.

Lemma scrape_pages_inv {W} (point_query : string -> W -> result (list api_substance) * W)
    (pages : list page) :
  forall (pw_substance_data : list Substance.t) (w : W),
    let '(r, w', log) := scrape_pages point_query pages pw_substance_data w in
    count_calls log <= 3 * length pages
    /\ match r with
       | inl data =>
           exists added,
             data = pw_substance_data ++ added
             /\ length added <= length pages
             /\ (Forall (fun p => page_url p <> "") pages -> Forall scraped added)
       | inr code => code = 1
       end.
Proof.
  induction pages as [|p pages IH]; intros acc w; simpl.
  - split; [lia|]. exists []. rewrite app_nil_r. auto.
  - pose proof (scrape_page_outcome point_query p w) as Hp.
    destruct (scrape_page point_query p w) as [[outcome w1] log1].
    destruct Hp as [Hcalls Hout]. destruct outcome as [|s|code].
    + specialize (IH acc w1).
      destruct (scrape_pages point_query pages acc w1) as [[r w2] log2].
      destruct IH as [Hc Hr]. rewrite count_calls_app. split; [lia|].
      destruct r as [data|code]; [|exact Hr].
      destruct Hr as (added & -> & Hlen & Hall). exists added.
      split; [reflexivity|]. split; [lia|]. intros Hurls.
      apply Forall_cons in Hurls. now apply Hall.
    + specialize (IH (acc ++ [s]) w1).
      destruct (scrape_pages point_query pages (acc ++ [s]) w1) as [[r w2] log2].
      destruct IH as [Hc Hr]. rewrite count_calls_app. split; [lia|].
      destruct r as [data|code]; [|exact Hr].
      destruct Hr as (added & -> & Hlen & Hall). exists (s :: added).
      split; [now rewrite <- app_assoc|]. split; [simpl; lia|]. intros Hurls.
      apply Forall_cons in Hurls. destruct Hurls as [Hu Hurls].
      constructor; [now apply Hout|now apply Hall].
    + split; [lia|exact Hout].
Qed.

(** *** The loop with both handlers *)

Lemma try_attempts_sigint_outcome {W A} (sigint : W -> bool)
    (func : W -> result A * W) (remaining : nat) :
  forall w : W,
    let '(r, w', log) := try_attempts_sigint sigint func remaining w in
    count_calls log <= remaining
    /\ match r with
       | KeyboardInterrupt => sigint w' = true
       | Returned _ => (remaining = 0 /\ w' = w) \/ sigint w' = false
       end.
Proof.
  induction remaining as [|k IH]; intros w; simpl.
  - split; [lia|]. now left.
  - destruct (func w) as [r w1]. destruct (sigint w1) eqn:Hsig.
    + simpl. split; [lia|exact Hsig].
    + destruct r as [a|e].
      * simpl. split; [lia|]. now right.
      * specialize (IH w1).
        destruct (try_attempts_sigint sigint func k w1) as [[r2 w2] log2].
        destruct IH as [Hc Hr]. simpl. split; [lia|].
        destruct r2 as [x|]; [|exact Hr]. right.
        destruct Hr as [[_ ->]|Hr]; [exact Hsig|exact Hr].
Qed.

(** When no interrupt arrives, the helper is [try_three_times]. *)
Lemma try_attempts_no_sigint {W A} (func : W -> result A * W) (remaining : nat) :
  forall w : W,
    try_attempts_sigint (fun _ => false) func remaining w
    = let '(r, w', log) := try_attempts func remaining w in (Returned r, w', log).
Proof.
  induction remaining as [|k IH]; intros w; simpl; [reflexivity|].
  destruct (func w) as [[a|e] w1]; [reflexivity|].
  rewrite IH. now destruct (try_attempts func k w1) as [[r w2] log].
Qed.

Lemma scrape_page_no_sigint {W}
    (point_query : string -> W -> result (list api_substance) * W)
    (p : page) (w : W) :
  scrape_page_sigint (fun _ => false) point_query p w = scrape_page point_query p w.
Proof.
  unfold scrape_page_sigint, scrape_page, query_call_site, try_three_times_sigint,
    try_three_times.
  destruct (pw_should_skip (page_title p) (page_roa_sections p)); [reflexivity|].
  rewrite try_attempts_no_sigint.
  now destruct (try_attempts (point_query (page_api_name p)) 3 w) as [[r w'] log].
Qed.

Lemma scrape_pages_no_sigint {W}
    (point_query : string -> W -> result (list api_substance) * W)
    (pages : list page) :
  forall (pw_substance_data : list Substance.t) (w : W),
    scrape_pages_sigint (fun _ => false) point_query pages pw_substance_data w
    = scrape_pages point_query pages pw_substance_data w.
Proof.
  induction pages as [|p pages IH]; intros acc w; simpl; [reflexivity|].
  rewrite scrape_page_no_sigint.
  destruct (scrape_page point_query p w) as [[outcome w1] log1].
  destruct outcome as [|s|code]; [| |reflexivity]; now rewrite IH.
Qed.

Lemma query_body_appended (url name : string) (common : list string)
    (data : option (list api_substance)) (s : Substance.t) :
  query_body url name common data = Ok (Some s) ->
  Substance.name s = Some name /\ Substance.url s = Some url.
Proof.
  destruct data as [[|first more]|]; simpl; try discriminate.
  destruct (api_roas first) as [roas|]; [|discriminate].
  intros [= <-]. simpl. auto.
Qed.

Lemma scrape_page_sigint_outcome {W} (sigint : W -> bool)
    (point_query : string -> W -> result (list api_substance) * W)
    (p : page) (w : W) :
  let '(outcome, w', log) := scrape_page_sigint sigint point_query p w in
  count_calls log <= 3
  /\ match outcome with
     | Exited code => (code = 0 /\ sigint w' = true) \/ (code = 1 /\ sigint w' = false)
     | Skipped => sigint w' = false
     | Appended s => sigint w' = false /\ (page_url p <> "" -> scraped s)
     end.
Proof.
  unfold scrape_page_sigint, try_three_times_sigint.
  destruct (sigint w) eqn:Hw; [simpl; split; [lia|now left]|].
  unfold pw_should_skip.
  destruct (page_title p) as [name|]; [|simpl; split; [lia|exact Hw]].
  destruct (nonempty name) eqn:Hne; cbn [negb orb]; [|simpl; split; [lia|exact Hw]].
  destruct (is_experience name || (page_roa_sections p =? 0)%nat);
    [simpl; split; [lia|exact Hw]|].
  cbn [default].
  pose proof (try_attempts_sigint_outcome sigint (point_query (page_api_name p)) 3 w)
    as Hhelper.
  destruct (try_attempts_sigint sigint (point_query (page_api_name p)) 3 w)
    as [[data w1] log1].
  destruct Hhelper as [Hc Hr]. split; [exact Hc|].
  destruct data as [data|]; [|now left].
  destruct Hr as [[Hr _]|Hr]; [discriminate|].
  destruct (query_body _ _ _ data) as [[s|]|e] eqn:Hq.
  - split; [exact Hr|]. intros Hurl. apply query_body_appended in Hq.
    destruct Hq as [Hn Hu]. split.
    + exists name. split; [exact Hn|]. now apply nonempty_iff.
    + exists (page_url p). auto.
  - exact Hr.
  - right. auto.
Qed.

Lemma scrape_pages_sigint_inv {W} (sigint : W -> bool)
    (point_query : string -> W -> result (list api_substance) * W)
    (pages : list page) :
  forall (pw_substance_data : list Substance.t) (w : W),
    let '(r, w', log) :=
      scrape_pages_sigint sigint point_query pages pw_substance_data w in
    count_calls log <= 3 * length pages
    /\ match r with
       | inl data =>
           ((pages = [] /\ w' = w) \/ sigint w' = false)
           /\ exists added,
                data = pw_substance_data ++ added
                /\ length added <= length pages
                /\ (Forall (fun p => page_url p <> "") pages -> Forall scraped added)
       | inr code => (code = 0 /\ sigint w' = true) \/ (code = 1 /\ sigint w' = false)
       end.
Proof.
  induction pages as [|p pages IH]; intros acc w; simpl.
  - split; [lia|]. split; [now left|]. exists []. rewrite app_nil_r. auto.
  - pose proof (scrape_page_sigint_outcome sigint point_query p w) as Hp.
    destruct (scrape_page_sigint sigint point_query p w) as [[outcome w1] log1].
    destruct Hp as [Hcalls Hout]. destruct outcome as [|s|code].
    + specialize (IH acc w1).
      destruct (scrape_pages_sigint sigint point_query pages acc w1) as [[r w2] log2].
      destruct IH as [Hc Hr]. rewrite count_calls_app. split; [lia|].
      destruct r as [data|code]; [|exact Hr].
      destruct Hr as (Hsig & added & -> & Hlen & Hall). split.
      { right. destruct Hsig as [[_ ->]|Hsig]; [exact Hout|exact Hsig]. }
      exists added.
      split; [reflexivity|]. split; [lia|]. intros Hurls.
      apply Forall_cons in Hurls. now apply Hall.
    + specialize (IH (acc ++ [s]) w1).
      destruct (scrape_pages_sigint sigint point_query pages (acc ++ [s]) w1)
        as [[r w2] log2].
      destruct IH as [Hc Hr]. rewrite count_calls_app. split; [lia|].
      destruct r as [data|code]; [|exact Hr].
      destruct Hr as (Hsig & added & -> & Hlen & Hall). destruct Hout as [Hw1 Hs]. split.
      { right. destruct Hsig as [[_ ->]|Hsig]; [exact Hw1|exact Hsig]. }
      exists (s :: added).
      split; [now rewrite <- app_assoc|]. split; [simpl; lia|]. intros Hurls.
      apply Forall_cons in Hurls. destruct Hurls as [Hu Hurls].
      constructor; [now apply Hs|now apply Hall].
    + split; [lia|exact Hout].
Qed.

(** The page loop, with its two handlers, makes at most three point
    queries per page.  When it runs to its end, no interrupt has arrived
    (unless there was no page at all), it has appended at most one record
    per page, behind the records it started with, and every appended
    record has a non-empty name and, when the pages have non-empty urls, a
    non-empty url.  When a page ends the program, the exit status is 0 if
    the user's interrupt has arrived and 1 if it has not; both happen.
    In a run in which no interrupt arrives the loop is [scrape_pages]. *)
Theorem scrape_pages_sigint_spec {W} (sigint : W -> bool)
    (point_query : string -> W -> result (list api_substance) * W)
    (pages : list page) (pw_substance_data : list Substance.t) (w : W) :
  (let '(r, w', log) :=
     scrape_pages_sigint sigint point_query pages pw_substance_data w in
   count_calls log <= 3 * length pages
   /\ match r with
      | inl data =>
          ((pages = [] /\ w' = w) \/ sigint w' = false)
          /\ exists added,
               data = pw_substance_data ++ added
               /\ length added <= length pages
               /\ (Forall (fun p => page_url p <> "") pages -> Forall scraped added)
      | inr code => (code = 0 /\ sigint w' = true) \/ (code = 1 /\ sigint w' = false)
      end)
  /\ scrape_pages_sigint (fun _ => false) point_query pages pw_substance_data w
     = scrape_pages point_query pages pw_substance_data w
  /\ fst (fst (scrape_pages_sigint (fun _ => true) answers [lsd_page] [] tt)) = inr 0
  /\ fst (fst (scrape_pages_sigint (fun _ => false) (fun _ => always_fails)
                  [lsd_page] [] tt))
     = inr 1.
Proof.
  split; [apply scrape_pages_sigint_inv|]. split; [apply scrape_pages_no_sigint|].
  split; reflexivity.
Qed.

(** A run in which the page loop comes to its end over pages with
    non-empty urls, and in which every Source B record has a name, a
    non-empty pretty name and combo keys that are ignored or in the table,
    merges without an exception, into at most one record per page. *)
Theorem scrape_then_reconcile {W}
    (point_query : string -> W -> result (list api_substance) * W)
    (pages : list page) (ts : list Substance.t) (w w' : W) (log : list event)
    (pw : list Substance.t) :
  scrape_pages point_query pages [] w = (inl pw, w', log) ->
  Forall (fun p => page_url p <> "") pages ->
  Forall factsheet ts ->
  exists substance_data,
    reconcile pw ts = Ok substance_data
    /\ length substance_data <= length pages.
Proof.
  intros Hscrape Hurls Hts.
  pose proof (scrape_pages_inv point_query pages [] w) as Hinv.
  rewrite Hscrape in Hinv. destruct Hinv as [_ (added & Hpw & Hlen & Hall)].
  simpl in Hpw. subst added. specialize (Hall Hurls).
  rewrite reconcile_iterations.
  destruct (merge_iterations_ok (all_substance_names pw ts) pw ts Hall Hts) as [its Hits].
  rewrite Hits. simpl. eexists. split; [reflexivity|].
  etrans; [exact (appended_count _ _ _ _ Hits)|].
  etrans; [|exact Hlen].
  apply submseteq_length. exact (proj1 (consumed_submseteq _ _ _ _ Hits)).
Qed.

(** ** The further theorems at sample records *)

Lemma sample_scraped : Forall scraped [mdma_a; lsd_a].
Proof.
  repeat constructor; eexists; (split; [reflexivity|discriminate]).
Qed.

Lemma lsd_b_factsheet : factsheet lsd_b.
Proof.
  split; [eexists; reflexivity|]. split.
  - eexists. split; [reflexivity|discriminate].
  - apply Forall_cons. split; [right; eexists; reflexivity|].
    apply Forall_cons. split; [left; apply list_elem_of_here|constructor].
Qed.

Lemma record_names_are_visited_witness :
  lsd_a ∈ [mdma_a; lsd_a] ++ [lsd_b]
  /\ Substance.name lsd_a = Some "LSD"
  /\ lower "LSD" ∈ all_substance_names [mdma_a; lsd_a] [lsd_b].
Proof.
  assert (H1 : lsd_a ∈ [mdma_a; lsd_a] ++ [lsd_b]).
  { apply list_elem_of_further, list_elem_of_here. }
  assert (H2 : Substance.name lsd_a = Some "LSD") by reflexivity.
  split; [exact H1|]. split; [exact H2|].
  exact (proj1 (record_names_are_visited [mdma_a; lsd_a] [lsd_b] lsd_a "LSD" H1 H2)).
Defined.

Lemma loop_consumes_once_witness :
  merge_iterations (all_substance_names [mdma_a; lsd_a] [lsd_b]) [mdma_a; lsd_a] [lsd_b]
  = Ok sample_iterations
  /\ List.filter Substance.truthy (map it_ts sample_iterations) ⊆+ [lsd_b].
Proof.
  assert (H : merge_iterations (all_substance_names [mdma_a; lsd_a] [lsd_b])
                [mdma_a; lsd_a] [lsd_b] = Ok sample_iterations)
    by (vm_compute; reflexivity).
  split; [exact H|].
  exact (proj2 (loop_consumes_once [mdma_a; lsd_a] [lsd_b] sample_iterations H)).
Defined.

Lemma output_size_witness :
  reconcile [mdma_a; lsd_a] [lsd_b] = Ok sample_output
  /\ length sample_output <= length [mdma_a; lsd_a].
Proof.
  assert (H : reconcile [mdma_a; lsd_a] [lsd_b] = Ok sample_output)
    by (vm_compute; reflexivity).
  split; [exact H|].
  exact (proj1 (output_size [mdma_a; lsd_a] [lsd_b] sample_output H)).
Defined.

Lemma reconcile_returns_witness :
  Forall scraped [mdma_a; lsd_a]
  /\ Forall factsheet [lsd_b]
  /\ exists substance_data, reconcile [mdma_a; lsd_a] [lsd_b] = Ok substance_data.
Proof.
  assert (H1 : Forall scraped [mdma_a; lsd_a]) by exact sample_scraped.
  assert (H2 : Forall factsheet [lsd_b]) by (constructor; [exact lsd_b_factsheet|constructor]).
  split; [exact H1|]. split; [exact H2|].
  exact (reconcile_returns [mdma_a; lsd_a] [lsd_b] H1 H2).
Defined.

Lemma aliases_lowercase_witness :
  merge_records lsd_a lsd_b = Ok lsd_merged
  /\ match lsd_merged with
     | Some c =>
         Forall (fun alias => alias <> "" /\ lower alias = alias)
                (CanonicalSubstance.aliases c)
     | None => False
     end.
Proof.
  assert (H : merge_records lsd_a lsd_b = Ok lsd_merged) by (vm_compute; reflexivity).
  split; [exact H|].
  destruct lsd_merged as [c|] eqn:E; [|vm_compute in E; discriminate E].
  exact (aliases_lowercase lsd_a lsd_b c H).
Defined.

Lemma scrape_page_appended_witness :
  scrape_page answers lsd_page tt = (Appended lsd_scraped, tt, [Called])
  /\ substance_name_match (page_api_name lsd_page) lsd_scraped = true.
Proof.
  assert (H : scrape_page answers lsd_page tt = (Appended lsd_scraped, tt, [Called]))
    by (vm_compute; reflexivity).
  split; [exact H|].
  destruct (scrape_page_appended answers lsd_page tt tt [Called] lsd_scraped H)
    as (name & _ & _ & _ & _ & _ & _ & _ & _ & Hm).
  exact Hm.
Defined.

Lemma scrape_then_reconcile_witness :
  scrape_pages answers [lsd_page] [] tt = (inl [lsd_scraped], tt, [Called])
  /\ Forall (fun p => page_url p <> "") [lsd_page]
  /\ Forall factsheet [lsd_b]
  /\ exists substance_data,
       reconcile [lsd_scraped] [lsd_b] = Ok substance_data
       /\ length substance_data <= length [lsd_page].
Proof.
  assert (H1 : scrape_pages answers [lsd_page] [] tt = (inl [lsd_scraped], tt, [Called]))
    by (vm_compute; reflexivity).
  assert (H2 : Forall (fun p => page_url p <> "") [lsd_page])
    by (repeat constructor; discriminate).
  assert (H3 : Forall factsheet [lsd_b]) by (constructor; [exact lsd_b_factsheet|constructor]).
  split; [exact H1|]. split; [exact H2|]. split; [exact H3|].
  exact (scrape_then_reconcile answers [lsd_page] [lsd_b] tt tt [Called] [lsd_scraped]
           H1 H2 H3).
Defined.
